(** * Breakpoint bookkeeping of the Ripes code editor

    A shallow embedding of [CodeEditor] (src/codeeditor.cpp): the set of
    breakpoint lines [m_breakpoints], its reconciliation with the document in
    [updateSidebar], the click handler [breakpointClick] and the painter
    [breakpointAreaPaintEvent], together with the properties the
    specification states about them. *)

From Stdlib Require Import ZArith Lia SpecFloat.
From stdpp Require Import base decidable option list gmap sets.

Local Open Scope Z_scope.

(** ** Outcomes of a C++ computation

    A computation either returns, or runs into undefined behaviour (erasing
    [end()], dereferencing [rbegin()] of an empty set, signed overflow, a
    floating value that does not fit the [int] it is converted to), or, for a
    loop of the model, exhausts the bound on its iterations. *)

Inductive res (A : Type) : Type :=
  | Ok (a : A)
  | Undefined
  | OutOfFuel.
Arguments Ok {A} a.
Arguments Undefined {A}.
Arguments OutOfFuel {A}.

(** ** [int] *)

Definition int_min : Z := - 2 ^ 31.
Definition int_max : Z := 2 ^ 31 - 1.

Definition in_int (z : Z) : bool := (int_min <=? z) && (z <=? int_max).

(** The result of a signed operation that overflows is undefined. *)
Definition to_int (z : Z) : res Z := if in_int z then Ok z else Undefined.

Definition int_add (a b : Z) : res Z := to_int (a + b).
Definition int_sub (a b : Z) : res Z := to_int (a - b).

(** ** [std::set<int>] *)

(** Modelled from the spec: the declaration of [m_breakpoints] is in
    codeeditor.h, which is not part of the sources; "a set of non-negative
    integers (line indices), unique", that "must support retrieving the
    maximum element". codeeditor.cpp calls [empty], [rbegin], [end], [find],
    [insert] and [erase] on it, the interface of an ordered [std::set<int>],
    whose [rbegin()] is the greatest element. An iterator is the element it
    points at, [None] for [end()]. *)

Module StdSet.

Definition iterator : Type := option Z.

Definition end_ : iterator := None.

Definition empty (s : gset Z) : bool := bool_decide (s = ∅).

Definition greatest (s : gset Z) : option Z :=
  foldr (fun x o => Some (from_option (Z.max x) x o)) None (elements s).

Definition find (s : gset Z) (x : Z) : iterator :=
  if decide (x ∈ s) then Some x else end_.

(** [*(s.rbegin())] *)
Definition rbegin (s : gset Z) : res Z :=
  match greatest s with
  | Some m => Ok m
  | None => Undefined
  end.

(** [std::prev(s.end())] *)
Definition prev_end (s : gset Z) : res iterator :=
  match greatest s with
  | Some m => Ok (Some m)
  | None => Undefined
  end.

(** [s.erase(it)]: [it] has to point at an element of [s]. *)
Definition erase (s : gset Z) (it : iterator) : res (gset Z) :=
  match it with
  | Some x => if decide (x ∈ s) then Ok (s ∖ {[x]}) else Undefined
  | None => Undefined
  end.

Definition insert (s : gset Z) (x : Z) : gset Z := {[x]} ∪ s.

Definition clear (s : gset Z) : gset Z := ∅.

End StdSet.

(** ** [qreal]

    [qreal] is IEEE 754 binary64, with the operations of the standard
    library's executable specification of floating-point arithmetic. *)

Definition qreal : Type := spec_float.

Definition qreal_prec : Z := 53.
Definition qreal_emax : Z := 1024.

Definition qreal_add : qreal -> qreal -> qreal := SFadd qreal_prec qreal_emax.
Definition qreal_sub : qreal -> qreal -> qreal := SFsub qreal_prec qreal_emax.
Definition qreal_div : qreal -> qreal -> qreal := SFdiv qreal_prec qreal_emax.

(** The conversion of an [int] operand to [qreal]. *)
Definition qreal_of_int (z : Z) : qreal :=
  binary_normalize qreal_prec qreal_emax z 0 false.

(** The conversion of a [qreal] to [int] drops the fractional part; it is
    undefined when the result does not fit. *)
Definition int_of_qreal (x : qreal) : res Z :=
  match x with
  | S754_zero _ => Ok 0
  | S754_finite s m e => to_int (cond_Zopp s (Z.shiftl (Z.pos m) e))
  | S754_infinity _ | S754_nan => Undefined
  end.

(** ** The document and its blocks

    What the editor uses of [QTextDocument] and [QTextBlock]: a document has
    [blockCount] blocks, numbered from 0; a block handle is valid when it
    points at one of them; [next()] of the last block, and of an invalid
    block, is invalid, and the number of an invalid block is -1. *)

Inductive QTextBlock : Type :=
  | Block (n : Z)
  | InvalidBlock.

#[global] Instance QTextBlock_eq_dec : EqDecision QTextBlock.
Proof. solve_decision. Defined.

Record QTextDocument : Type := {
  blockCount : Z;
  (** [QTextBlock::isVisible()] of block [n] *)
  blockVisible : Z -> bool;
  (** [blockBoundingRect(b).height()] of block [n] *)
  blockHeight : Z -> qreal;
  (** [blockBoundingGeometry(b).top()] of block [n] *)
  blockTop : Z -> qreal
}.

Definition block_at (d : QTextDocument) (n : Z) : QTextBlock :=
  if (0 <=? n) && (n <? blockCount d) then Block n else InvalidBlock.

Definition isValid (b : QTextBlock) : bool :=
  match b with
  | Block _ => true
  | InvalidBlock => false
  end.

Definition blockNumber (b : QTextBlock) : Z :=
  match b with
  | Block n => n
  | InvalidBlock => -1
  end.

Definition next (d : QTextDocument) (b : QTextBlock) : QTextBlock :=
  match b with
  | Block n => block_at d (n + 1)
  | InvalidBlock => InvalidBlock
  end.

Definition isVisible (d : QTextDocument) (b : QTextBlock) : bool :=
  match b with
  | Block n => blockVisible d n
  | InvalidBlock => false
  end.

(** The bounding rectangle of an invalid block is empty. *)
Definition blockBoundingRect_height (d : QTextDocument) (b : QTextBlock) : qreal :=
  match b with
  | Block n => blockHeight d n
  | InvalidBlock => S754_zero false
  end.

Definition blockBoundingGeometry_top (d : QTextDocument) (b : QTextBlock) : qreal :=
  match b with
  | Block n => blockTop d n
  | InvalidBlock => S754_zero false
  end.

(** [findBlockByLineNumber(0)]: the first line is in the first block. *)
Definition findBlockByLineNumber0 (d : QTextDocument) : QTextBlock := block_at d 0.

(** ** The editor *)

Record CodeEditor : Type := {
  m_breakpoints : gset Z;
  document : QTextDocument;
  (** the number of [firstVisibleBlock()] *)
  firstVisible : Z;
  (** [contentOffset().y()] *)
  contentOffset_y : qreal;
  (** the calls of [repaint()] so far *)
  repaints : nat;
  (** the [top] of every breakpoint pixmap drawn so far, latest first *)
  pixmaps : list Z
}.

Definition set_breakpoints (s : gset Z) (ed : CodeEditor) : CodeEditor :=
  {| m_breakpoints := s; document := document ed;
     firstVisible := firstVisible ed; contentOffset_y := contentOffset_y ed;
     repaints := repaints ed; pixmaps := pixmaps ed |}.

Definition set_document (d : QTextDocument) (fv : Z) (off : qreal)
    (ed : CodeEditor) : CodeEditor :=
  {| m_breakpoints := m_breakpoints ed; document := d;
     firstVisible := fv; contentOffset_y := off;
     repaints := repaints ed; pixmaps := pixmaps ed |}.

(** The methods of the editor run in a state monad over [CodeEditor] whose
    results are the outcomes [res]. *)

Definition M (A : Type) : Type := CodeEditor -> res (A * CodeEditor).

#[global] Instance M_ret : MRet M := fun A a ed => Ok (a, ed).
#[global] Instance M_bind : MBind M := fun A B f m ed =>
  match m ed with
  | Ok (a, ed') => f a ed'
  | Undefined => Undefined
  | OutOfFuel => OutOfFuel
  end.

Definition lift {A} (r : res A) : M A := fun ed =>
  match r with
  | Ok a => Ok (a, ed)
  | Undefined => Undefined
  | OutOfFuel => OutOfFuel
  end.

Definition gets {A} (f : CodeEditor -> A) : M A := fun ed => Ok (f ed, ed).

Definition out_of_fuel {A} : M A := fun _ => OutOfFuel.

(** Reading and updating the member [m_breakpoints]. *)
Definition breakpoints_get {A} (f : gset Z -> res A) : M A := fun ed =>
  lift (f (m_breakpoints ed)) ed.

Definition breakpoints_set (f : gset Z -> res (gset Z)) : M unit := fun ed =>
  match f (m_breakpoints ed) with
  | Ok s => Ok (tt, set_breakpoints s ed)
  | Undefined => Undefined
  | OutOfFuel => OutOfFuel
  end.

Definition repaint : M unit := fun ed =>
  Ok (tt, {| m_breakpoints := m_breakpoints ed; document := document ed;
             firstVisible := firstVisible ed;
             contentOffset_y := contentOffset_y ed;
             repaints := S (repaints ed); pixmaps := pixmaps ed |}).

Definition drawPixmap (top : Z) : M unit := fun ed =>
  Ok (tt, {| m_breakpoints := m_breakpoints ed; document := document ed;
             firstVisible := firstVisible ed;
             contentOffset_y := contentOffset_y ed;
             repaints := repaints ed; pixmaps := top :: pixmaps ed |}).

Definition firstVisibleBlock : M QTextBlock :=
  gets (fun ed => block_at (document ed) (firstVisible ed)).

(** *** [CodeEditor::updateSidebar]

    The loop that drops the breakpoints of removed lines; the scrolling and
    the update of the two side areas before it leave the breakpoints alone. *)

Fixpoint updateSidebar_loop (fuel : nat) : M unit :=
  match fuel with
  | O => out_of_fuel
  | S fuel' =>
      e ← breakpoints_get (fun s => Ok (StdSet.empty s));
      if (e : bool) then mret tt
      else
        last ← breakpoints_get StdSet.rbegin;
        n ← gets (fun ed => blockCount (document ed));
        bound ← lift (int_sub n 1);
        if last >? bound then
          it ← breakpoints_get StdSet.prev_end;
          breakpoints_set (fun s => StdSet.erase s it);;
          updateSidebar_loop fuel'
        else mret tt
  end.

(** Every iteration erases an element, so the loop runs at most once more
    than there are breakpoints. *)
Definition updateSidebar : M unit := fun ed =>
  updateSidebar_loop (S (size (m_breakpoints ed))) ed.

(** *** [CodeEditor::breakpointClick] *)

(** The block index under the click: the offset of the content is taken
    off the click position when the first visible block is the first block
    of the document and added to it otherwise, the quotient by the height of
    the first visible block is computed in [qreal] and converted to [int]. *)
Definition click_index (atFirstLine : bool) (pos_y : Z) (offset_y height : qreal)
    : res Z :=
  if atFirstLine
  then int_of_qreal (qreal_div (qreal_sub (qreal_of_int pos_y) offset_y) height)
  else int_of_qreal (qreal_div (qreal_add (qreal_of_int pos_y) offset_y) height).

(** [while (index > 0) { block = block.next(); index--; }] *)
Definition walk (d : QTextDocument) (index : Z) (block : QTextBlock) : QTextBlock :=
  Z.iter index (next d) block.

(** The statement that sets or unsets the breakpoint of line [number],
    under [if (block.isValid())]. *)
Definition set_unset_breakpoint (forceState number : Z) : M unit :=
  brkptIter ← breakpoints_get (fun s => Ok (StdSet.find s number));
  if forceState =? 1 then
    breakpoints_set (fun s => Ok (StdSet.insert s number))
  else if forceState =? 2 then
    if bool_decide (brkptIter ≠ StdSet.end_) then
      it ← breakpoints_get (fun s => Ok (StdSet.find s number));
      breakpoints_set (fun s => StdSet.erase s it)
    else mret tt
  else
    if bool_decide (brkptIter ≠ StdSet.end_) then
      breakpoints_set (fun s => StdSet.erase s brkptIter)
    else
      breakpoints_set (fun s => Ok (StdSet.insert s number)).

(** The block the click lands on: the first visible block advanced by the
    block index. *)
Definition clicked_block (pos_y : Z) : M QTextBlock :=
  block ← firstVisibleBlock;
  d ← gets document;
  let height := blockBoundingRect_height d block in
  offset_y ← gets contentOffset_y;
  index ← lift (click_index (bool_decide (block = findBlockByLineNumber0 d))
                            pos_y offset_y height);
  mret (walk d index block).

Definition breakpointClick (pos_y : Z) (forceState : Z) : M unit :=
  block ← clicked_block pos_y;
  let number := blockNumber block in
  if isValid block then
    set_unset_breakpoint forceState number;;
    repaint
  else mret tt.

(** The three modes of [breakpointClick], by the names the specification
    gives them. *)
Definition toggle (lineIndex : Z) : M unit := set_unset_breakpoint 0 lineIndex.
Definition forceAdd (lineIndex : Z) : M unit := set_unset_breakpoint 1 lineIndex.
Definition forceRemove (lineIndex : Z) : M unit := set_unset_breakpoint 2 lineIndex.

(** The membership test of the painter and of the click handler,
    [m_breakpoints.find(lineIndex) != m_breakpoints.end()]. *)
Definition contains (lineIndex : Z) : M bool :=
  it ← breakpoints_get (fun s => Ok (StdSet.find s lineIndex));
  mret (bool_decide (it ≠ StdSet.end_)).

(** Modelled from the spec: [clearBreakpoints] is declared in codeeditor.h,
    which is not part of the sources; "clear(): empties the set". *)
Definition clearBreakpoints : M unit :=
  breakpoints_set (fun s => Ok (StdSet.clear s)).

(** *** [CodeEditor::breakpointAreaPaintEvent]

    The painter visits the blocks from the first visible one while they are
    valid and start above the bottom of the rectangle to paint, and draws
    the pixmap of every visible block in that rectangle that has a
    breakpoint. [rect_top] and [rect_bottom] are those of [event->rect()]. *)

Fixpoint paint_loop (fuel : nat) (rect_top rect_bottom : Z)
    (block : QTextBlock) (number top bottom : Z) : M unit :=
  match fuel with
  | O => out_of_fuel
  | S fuel' =>
      if isValid block && (top <=? rect_bottom) then
        d ← gets document;
        (if isVisible d block && (bottom >=? rect_top) then
           it ← breakpoints_get (fun s => Ok (StdSet.find s number));
           if bool_decide (it ≠ StdSet.end_) then drawPixmap top else mret tt
         else mret tt);;
        let block' := next d block in
        let top' := bottom in
        h ← lift (int_of_qreal (blockBoundingRect_height d block'));
        bottom' ← lift (int_add top' h);
        number' ← lift (int_add number 1);
        paint_loop fuel' rect_top rect_bottom block' number' top' bottom'
      else mret tt
  end.

Definition breakpointAreaPaintEvent (rect_top rect_bottom : Z) : M unit :=
  block ← firstVisibleBlock;
  d ← gets document;
  offset_y ← gets contentOffset_y;
  let number := blockNumber block in
  top ← lift (int_of_qreal (qreal_add (blockBoundingGeometry_top d block) offset_y));
  h ← lift (int_of_qreal (blockBoundingRect_height d block));
  bottom ← lift (int_add top h);
  paint_loop (S (Z.to_nat (blockCount d))) rect_top rect_bottom
             block number top bottom.

(** ** The specification's reading of the operations *)

(** [reconcile(newLineCount)] in one pass: keep the breakpoints below the
    line count. *)
Definition reconcile_filter (newLineCount : Z) (s : gset Z) : gset Z :=
  filter (fun x => x < newLineCount) s.

(** [toggle(lineIndex)]: "if lineIndex is present, remove it; else insert
    it". *)
Definition toggled (x : Z) (s : gset Z) : gset Z :=
  if decide (x ∈ s) then s ∖ {[x]} else {[x]} ∪ s.

(** The offset the specification's [lineIndexFromOffset] divides: "if
    firstVisibleLine is the document's first line, the viewport offset is
    subtracted before division; otherwise it is added". *)
Definition adjusted_offset (firstVisibleLine pixelY viewportTopOffset : Z) : Z :=
  if firstVisibleLine =? 0
  then pixelY - viewportTopOffset
  else pixelY + viewportTopOffset.

(** The line the specification's [lineIndexFromOffset] computes: the
    adjusted offset divided by the line height as integers, counted from
    the first visible line. *)
Definition lineIndexFromOffset (firstVisibleLine pixelY lineHeight viewportTopOffset : Z)
    : Z :=
  firstVisibleLine
  + adjusted_offset firstVisibleLine pixelY viewportTopOffset ÷ lineHeight.

(** ** Line counts and sample editors *)

(** A line count is a non-negative [int]. *)
Definition is_line_count (n : Z) : Prop := 0 <= n <= int_max.

(** A document of [n] visible lines of height [height], whose geometry is
    asked for the block at the top of the content only. *)
Definition uniform_document (n height : Z) : QTextDocument :=
  {| blockCount := n;
     blockVisible := fun _ => true;
     blockHeight := fun _ => qreal_of_int height;
     blockTop := fun _ => qreal_of_int 0 |}.

Definition plain_document (n : Z) : QTextDocument := uniform_document n 20.

(** An editor at the top of a document of [n] lines of height 20, with the
    breakpoints [s]. *)
Definition plain_editor (s : gset Z) (n : Z) : CodeEditor :=
  {| m_breakpoints := s; document := plain_document n; firstVisible := 0;
     contentOffset_y := qreal_of_int 0; repaints := 0; pixmaps := [] |}.

(** The editor [ed] after one [repaint()]. *)
Definition repaint_of (ed : CodeEditor) : CodeEditor :=
  {| m_breakpoints := m_breakpoints ed; document := document ed;
     firstVisible := firstVisible ed; contentOffset_y := contentOffset_y ed;
     repaints := S (repaints ed); pixmaps := pixmaps ed |}.

(** An editor without breakpoints over [n] lines of height [height], whose
    first visible line is [fv], with the content offset [offset]. *)
Definition scrolled_editor (n fv height offset : Z) : CodeEditor :=
  {| m_breakpoints := ∅; document := uniform_document n height;
     firstVisible := fv; contentOffset_y := qreal_of_int offset;
     repaints := 0; pixmaps := [] |}.

(** ** Validity of block handles and of breakpoints *)

(** A block handle of document [d] points at one of its blocks or is
    invalid. *)
Definition wf_block (d : QTextDocument) (b : QTextBlock) : Prop :=
  match b with
  | Block n => 0 <= n < blockCount d
  | InvalidBlock => True
  end.

(** Every breakpoint is a line of the document. *)
Definition valid_breakpoints (ed : CodeEditor) : Prop :=
  forall x, x ∈ m_breakpoints ed -> 0 <= x <= blockCount (document ed) - 1.

(** The operations on the breakpoints. [OpEdit d fv off] is an edit that
    leaves the document [d], scrolled to [fv] and [off], followed by the
    [updateSidebar] it triggers. *)
Inductive operation : Type :=
  | OpToggle (lineIndex : Z)
  | OpForceAdd (lineIndex : Z)
  | OpForceRemove (lineIndex : Z)
  | OpClear
  | OpEdit (d : QTextDocument) (fv : Z) (off : qreal)
  | OpClick (pos_y forceState : Z).

Definition run (o : operation) : M unit :=
  match o with
  | OpToggle x => toggle x
  | OpForceAdd x => forceAdd x
  | OpForceRemove x => forceRemove x
  | OpClear => clearBreakpoints
  | OpEdit d fv off => fun ed => updateSidebar (set_document d fv off ed)
  | OpClick pos_y forceState => breakpointClick pos_y forceState
  end.

(** What the callers guarantee: the line index handed to an operation that
    may insert it is a line of the document, and a line count is one. *)
Definition precondition (ed : CodeEditor) (o : operation) : Prop :=
  match o with
  | OpToggle x | OpForceAdd x => 0 <= x <= blockCount (document ed) - 1
  | OpEdit d _ _ => is_line_count (blockCount d)
  | OpForceRemove _ | OpClear | OpClick _ _ => True
  end.

(** The editors reached from one without breakpoints. *)
Inductive reachable : CodeEditor -> Prop :=
  | reachable_init ed : m_breakpoints ed = ∅ -> reachable ed
  | reachable_step ed o ed' :
      reachable ed -> precondition ed o -> run o ed = Ok (tt, ed') ->
      reachable ed'.

(** Two editors that differ at most in the pixmaps drawn. *)
Definition same_but_pixmaps (ed ed' : CodeEditor) : Prop :=
  m_breakpoints ed' = m_breakpoints ed /\
  document ed' = document ed /\
  firstVisible ed' = firstVisible ed /\
  contentOffset_y ed' = contentOffset_y ed /\
  repaints ed' = repaints ed.

(** The blocks left to visit from a block handle on. *)
Definition blocks_left (d : QTextDocument) (b : QTextBlock) : nat :=
  match b with
  | Block n => Z.to_nat (blockCount d - n)
  | InvalidBlock => 0
  end.

(** A computation that returns without touching the breakpoints, or is
    undefined; it does not exhaust its bound. *)
Definition keeps_breakpoints {A} (r : res (A * CodeEditor)) (ed : CodeEditor) : Prop :=
  match r with
  | Ok (_, ed') => same_but_pixmaps ed ed'
  | Undefined => True
  | OutOfFuel => False
  end.

(** ** Integers in [qreal] *)

(** An [int] in its range. *)
Definition is_int (z : Z) : Prop := int_min <= z <= int_max.

(** The [qreal] that is the integer [z], for [z] below [2 ^ 53] in absolute
    value: a mantissa of 53 digits and the exponent that goes with it. *)
Definition int_float (z : Z) : qreal :=
  if z =? 0 then S754_zero false
  else S754_finite (z <? 0)
         (Z.to_pos (Z.abs z * 2 ^ (53 - Zdigits2 z))) (Zdigits2 z - 53).

(** The last step of [binary_round_aux]: the rounded mantissa is brought
    back to 53 digits. *)
Definition round_finish (s : bool) (m e : Z) : spec_float :=
  let '(mrs, e') := shr_fexp 53 1024 m e loc_Exact in
  match shr_m mrs with
  | 0 => S754_zero s
  | Z.pos p => if e' <=? 1024 - 53 then S754_finite s p e' else S754_infinity s
  | Z.neg _ => S754_nan
  end.


(** ** The rest of the editor *)

(** Sequencing of outcomes. *)
Definition res_bind {A B} (r : res A) (f : A -> res B) : res B :=
  match r with
  | Ok a => f a
  | Undefined => Undefined
  | OutOfFuel => OutOfFuel
  end.

Definition int_mul (a b : Z) : res Z := to_int (a * b).

(** *** [CodeEditor::lineNumberAreaWidth] *)

(** [while (max >= 10) { max /= 10; ++digits; }] *)
Fixpoint digits_loop (fuel : nat) (max digits : Z) : res Z :=
  match fuel with
  | O => OutOfFuel
  | S fuel' =>
      if max >=? 10 then
        res_bind (int_add digits 1) (fun digits' =>
        digits_loop fuel' (max ÷ 10) digits')
      else Ok digits
  end.

(** [charWidth] is [fontMetrics().width(QLatin1Char('15'))] and
    [blockCount] is [blockCount()]. A division by 10 takes at least three
    binary digits off [max]. *)
Definition lineNumberAreaWidth (charWidth blockCount : Z) : res Z :=
  let rightPadding := 6 in
  let max := Z.max 1 blockCount in
  res_bind (digits_loop (S (Z.to_nat (Z.log2 max))) max 1) (fun digits =>
  res_bind (int_mul charWidth digits) (fun w =>
  int_add rightPadding w)).

(** *** [CodeEditor::updateSidebarWidth] and [CodeEditor::resizeEvent] *)

(** [QRect(x, y, width, height)] *)
Record QRect : Type := {
  rect_x : Z;
  rect_y : Z;
  rect_width : Z;
  rect_height : Z
}.

Definition rect_left (r : QRect) : Z := rect_x r.
Definition rect_right (r : QRect) : Z := rect_x r + rect_width r - 1.

(** The value [updateSidebarWidth] gives [m_sidebarWidth] and hands to
    [setViewportMargins] as the left margin; [areaWidth] is
    [m_breakpointArea->width()]. *)
Definition updateSidebarWidth (charWidth areaWidth blockCount : Z) : res Z :=
  res_bind (lineNumberAreaWidth charWidth blockCount) (fun w =>
  int_add w areaWidth).

(** The geometry [resizeEvent] gives the line number area and the
    breakpoint area, in this order, for the contents rectangle [cr]. *)
Definition resizeEvent (cr : QRect) (charWidth areaWidth blockCount : Z)
    : res (QRect * QRect) :=
  res_bind (int_add (rect_left cr) areaWidth) (fun x =>
  res_bind (lineNumberAreaWidth charWidth blockCount) (fun w =>
  Ok ({| rect_x := x; rect_y := rect_y cr;
         rect_width := w; rect_height := rect_height cr |},
      {| rect_x := rect_left cr; rect_y := rect_y cr;
         rect_width := areaWidth; rect_height := rect_height cr |}))).

(** *** [CodeEditor::eventFilter] *)

(** The font of the editor: the point size of [m_font], whether
    [m_fontTimer] is running, and the point size of the font last handed to
    [setFont]. *)
Record FontState : Type := {
  m_font_pointSize : Z;
  m_fontTimer_active : bool;
  widget_pointSize : Z
}.

Inductive QEvent : Type :=
  | Wheel (angleDelta_y : Z)
  | OtherEvent.

(** [Qt::ControlModifier] in the flags of [keyboardModifiers()] *)
Definition ControlModifier : Z := 67108864.

Definition eventFilter (event : QEvent) (keyboardModifiers : Z) (st : FontState)
    : bool * FontState :=
  match event with
  | Wheel angleDelta_y =>
      if keyboardModifiers =? ControlModifier then
        let st1 :=
          if negb (m_fontTimer_active st) then
            let size :=
              if angleDelta_y >? 0 then
                if m_font_pointSize st <? 30 then m_font_pointSize st + 1
                else m_font_pointSize st
              else
                if m_font_pointSize st >? 6 then m_font_pointSize st - 1
                else m_font_pointSize st in
            {| m_font_pointSize := size; m_fontTimer_active := true;
               widget_pointSize := widget_pointSize st |}
          else st in
        (true, {| m_font_pointSize := m_font_pointSize st1;
                  m_fontTimer_active := m_fontTimer_active st1;
                  widget_pointSize := m_font_pointSize st1 |})
      else (false, st)
  | OtherEvent => (false, st)
  end.

(** The font after the constructor: 10 points, the timer not started. *)
Definition initial_font : FontState :=
  {| m_font_pointSize := 10; m_fontTimer_active := false;
     widget_pointSize := 10 |}.

(** What happens to the font: an event goes through the filter, or the
    single-shot timer runs out. *)
Inductive font_step : Type :=
  | Filter (event : QEvent) (keyboardModifiers : Z)
  | TimerExpires.

Definition font_run (s : font_step) (st : FontState) : FontState :=
  match s with
  | Filter event keyboardModifiers => snd (eventFilter event keyboardModifiers st)
  | TimerExpires =>
      {| m_font_pointSize := m_font_pointSize st; m_fontTimer_active := false;
         widget_pointSize := widget_pointSize st |}
  end.

(** *** [CodeEditor::lineNumberAreaPaintEvent]

    The painter of the line numbers walks the blocks as the painter of the
    breakpoints does; what it returns here is the [top] and the number of
    every [drawText], in the order drawn. *)

Fixpoint lineNumber_loop (fuel : nat) (d : QTextDocument) (rect_top rect_bottom : Z)
    (block : QTextBlock) (number top bottom : Z) : res (list (Z * Z)) :=
  match fuel with
  | O => OutOfFuel
  | S fuel' =>
      if isValid block && (top <=? rect_bottom) then
        res_bind
          (if isVisible d block && (bottom >=? rect_top) then
             res_bind (int_add number 1) (fun n => Ok [(top, n)])
           else Ok [])
          (fun drawn =>
        let block' := next d block in
        let top' := bottom in
        res_bind (int_of_qreal (blockBoundingRect_height d block')) (fun h =>
        res_bind (int_add top' h) (fun bottom' =>
        res_bind (int_add number 1) (fun number' =>
        res_bind (lineNumber_loop fuel' d rect_top rect_bottom
                    block' number' top' bottom') (fun rest =>
        Ok (drawn ++ rest))))))
      else Ok []
  end.

Definition lineNumberAreaPaintEvent (rect_top rect_bottom : Z) (ed : CodeEditor)
    : res (list (Z * Z)) :=
  let d := document ed in
  let block := block_at d (firstVisible ed) in
  let number := blockNumber block in
  res_bind (int_of_qreal (qreal_add (blockBoundingGeometry_top d block)
                                    (contentOffset_y ed))) (fun top =>
  res_bind (int_of_qreal (blockBoundingRect_height d block)) (fun h =>
  res_bind (int_add top h) (fun bottom =>
  lineNumber_loop (S (Z.to_nat (blockCount d))) d rect_top rect_bottom
                  block number top bottom))).

(** *** [BreakpointArea]

    The area keeps the position of the last context menu in [m_event]; the
    actions of the menu click there. *)

Record BreakpointArea : Type := {
  m_event_x : Z;
  m_event_y : Z
}.

(** The constructor: [QPoint(0, 0)]. *)
Definition initial_area : BreakpointArea := {| m_event_x := 0; m_event_y := 0 |}.

Inductive MenuAction : Type :=
  | AddBreakpoint
  | RemoveBreakpoint.

(** The slots connected to [m_addAction] and [m_removeAction]. *)
Definition triggered (a : MenuAction) (area : BreakpointArea) : M unit :=
  match a with
  | AddBreakpoint => breakpointClick (m_event_y area) 1
  | RemoveBreakpoint => breakpointClick (m_event_y area) 2
  end.

(** [contextMenuEvent] at [(pos_x, pos_y)], where [chosen] is the action
    picked in [contextMenu.exec], if any. *)
Definition contextMenuEvent (pos_x pos_y : Z) (chosen : option MenuAction)
    (area : BreakpointArea) : M BreakpointArea := fun ed =>
  let area' := {| m_event_x := pos_x; m_event_y := pos_y |} in
  match chosen with
  | Some a =>
      match triggered a area' ed with
      | Ok (_, ed') => Ok (area', ed')
      | Undefined => Undefined
      | OutOfFuel => OutOfFuel
      end
  | None => Ok (area', ed)
  end.

(** ** Readings used to state the properties *)

(** The number of breakpoints of [s] that are not lines of a document of
    [n] lines. *)
Definition to_erase (n : Z) (s : gset Z) : nat :=
  size (filter (fun y => n <= y) s).

(** The number of decimal digits of a positive number. *)
Definition is_digits (d n : Z) : Prop := 1 <= d /\ 10 ^ (d - 1) <= n < 10 ^ d.

(** The editor [ed] with the pixmaps [l] drawn on top of its own. *)
Definition add_pixmaps (l : list Z) (ed : CodeEditor) : CodeEditor :=
  {| m_breakpoints := m_breakpoints ed; document := document ed;
     firstVisible := firstVisible ed; contentOffset_y := contentOffset_y ed;
     repaints := repaints ed; pixmaps := l ++ pixmaps ed |}.

(** The blocks a painter visits and finds visible in the rectangle: the
    [top] and the block number of each, in the order visited. *)
Fixpoint visited (fuel : nat) (d : QTextDocument) (rect_top rect_bottom : Z)
    (block : QTextBlock) (number top bottom : Z) : res (list (Z * Z)) :=
  match fuel with
  | O => OutOfFuel
  | S fuel' =>
      if isValid block && (top <=? rect_bottom) then
        let here :=
          if isVisible d block && (bottom >=? rect_top)
          then [(top, number)] else [] in
        let block' := next d block in
        res_bind (int_of_qreal (blockBoundingRect_height d block')) (fun h =>
        res_bind (int_add bottom h) (fun bottom' =>
        res_bind (int_add number 1) (fun number' =>
        res_bind (visited fuel' d rect_top rect_bottom
                    block' number' bottom bottom') (fun rest =>
        Ok (here ++ rest)))))
      else Ok []
  end.

(** A list of numbers each greater than the one before, none below [lo]. *)
Fixpoint increasing_from (lo : Z) (l : list Z) : Prop :=
  match l with
  | [] => True
  | x :: l' => lo <= x /\ increasing_from (x + 1) l'
  end.
(** * Properties *)

(** ** The greatest element of a set *)

Lemma greatest_list_None (l : list Z) :
  foldr (fun x o => Some (from_option (Z.max x) x o)) None l = None -> l = [].
Proof. destruct l; [reflexivity | discriminate]. Qed.

Lemma greatest_list_Some (l : list Z) (m : Z) :
  foldr (fun x o => Some (from_option (Z.max x) x o)) None l = Some m ->
  m ∈ l /\ forall x, x ∈ l -> x <= m.
Proof.
  revert m. induction l as [|a l IH]; intros m; simpl; [discriminate|].
  destruct (foldr _ None l) as [m'|] eqn:E; simpl; intros [= <-].
  - destruct (IH m' eq_refl) as [Hin Hle]. split.
    + destruct (Z.max_spec a m') as [[_ ->] | [_ ->]].
      * apply elem_of_cons. by right.
      * apply elem_of_cons. by left.
    + intros x [->|Hx]%elem_of_cons; [lia|]. specialize (Hle x Hx). lia.
  - apply greatest_list_None in E as ->. split; [apply elem_of_cons; by left|].
    intros x [->|Hx]%elem_of_cons; [lia|]. by apply elem_of_nil in Hx.
Qed.

Lemma greatest_None (s : gset Z) : StdSet.greatest s = None -> s = ∅.
Proof.
  intros H%greatest_list_None. by apply elements_empty_inv, leibniz_equiv in H.
Qed.

Lemma greatest_Some (s : gset Z) (m : Z) :
  StdSet.greatest s = Some m -> m ∈ s /\ forall x, x ∈ s -> x <= m.
Proof.
  intros [Hin Hle]%greatest_list_Some. split.
  - by apply elem_of_elements.
  - intros x Hx. apply Hle. by apply elem_of_elements.
Qed.

Lemma greatest_nonempty (s : gset Z) :
  s ≠ ∅ -> exists m, StdSet.greatest s = Some m.
Proof.
  intros Hne. destruct (StdSet.greatest s) as [m|] eqn:E; [by exists m|].
  by apply greatest_None in E.
Qed.

(** ** Records and the monad *)

Lemma set_breakpoints_same (ed : CodeEditor) :
  set_breakpoints (m_breakpoints ed) ed = ed.
Proof. by destruct ed. Qed.

Lemma set_breakpoints_twice (s s' : gset Z) (ed : CodeEditor) :
  set_breakpoints s (set_breakpoints s' ed) = set_breakpoints s ed.
Proof. reflexivity. Qed.

Lemma m_breakpoints_set (s : gset Z) (ed : CodeEditor) :
  m_breakpoints (set_breakpoints s ed) = s.
Proof. reflexivity. Qed.

Lemma document_set_breakpoints (s : gset Z) (ed : CodeEditor) :
  document (set_breakpoints s ed) = document ed.
Proof. reflexivity. Qed.

Ltac unfold_M :=
  unfold mbind, mret, M_bind, M_ret, breakpoints_get, breakpoints_set, gets,
    lift, out_of_fuel in *.

(** ** Reconciliation: the loop of [updateSidebar] *)


Lemma int_sub_line_count (n : Z) : is_line_count n -> int_sub n 1 = Ok (n - 1).
Proof.
  unfold is_line_count, int_sub, to_int, in_int, int_min, int_max. intros H.
  destruct (- 2 ^ 31 <=? n - 1) eqn:E1; [|lia].
  destruct (n - 1 <=? 2 ^ 31 - 1) eqn:E2; [reflexivity|lia].
Qed.

Lemma reconcile_filter_drop (n m : Z) (s : gset Z) :
  n <= m -> reconcile_filter n (s ∖ {[m]}) = reconcile_filter n s.
Proof.
  intros Hle. unfold reconcile_filter. apply set_eq. intros x.
  rewrite !elem_of_filter, elem_of_difference, elem_of_singleton.
  split; [tauto|]. intros [Hx Hs]. repeat split; [done..|lia].
Qed.

Lemma reconcile_filter_all (n : Z) (s : gset Z) :
  (forall x, x ∈ s -> x < n) -> reconcile_filter n s = s.
Proof.
  intros Hall. unfold reconcile_filter. apply set_eq. intros x.
  rewrite elem_of_filter. split; [tauto|]. intros Hx. split; [by apply Hall|done].
Qed.

(** With fuel above the number of breakpoints the loop returns, and what
    it leaves is the set filtered in one pass. *)
Lemma updateSidebar_loop_filter (fuel : nat) (ed : CodeEditor) :
  is_line_count (blockCount (document ed)) ->
  (size (m_breakpoints ed) < fuel)%nat ->
  updateSidebar_loop fuel ed =
    Ok (tt, set_breakpoints
              (reconcile_filter (blockCount (document ed)) (m_breakpoints ed)) ed).
Proof.
  revert ed. induction fuel as [|fuel IH]; intros ed Hn Hsize; [lia|].
  simpl. unfold_M. unfold StdSet.empty.
  destruct (bool_decide_reflect (m_breakpoints ed = ∅)) as [Hempty|Hne].
  - rewrite reconcile_filter_all, set_breakpoints_same; [reflexivity|].
    intros x. rewrite Hempty. by intros ?%not_elem_of_empty.
  - unfold StdSet.rbegin, StdSet.prev_end.
    destruct (greatest_nonempty _ Hne) as [m Hm]. rewrite Hm.
    destruct (greatest_Some _ _ Hm) as [Hin Hmax].
    rewrite (int_sub_line_count _ Hn).
    destruct (Z.gtb_spec m (blockCount (document ed) - 1)) as [Hgt|Hle].
    + cbn beta. rewrite Hm. simpl.
      destruct (decide (m ∈ m_breakpoints ed)) as [_|[]]; [|done].
      rewrite IH; simpl.
      * rewrite reconcile_filter_drop by lia. reflexivity.
      * exact Hn.
      * pose proof (size_difference (m_breakpoints ed) {[m]}) as Hd.
        rewrite size_singleton in Hd.
        assert (size (m_breakpoints ed) ≠ 0%nat) by by intros ?%size_empty_inv%leibniz_equiv.
        rewrite Hd by by apply singleton_subseteq_l. lia.
    + rewrite reconcile_filter_all, set_breakpoints_same; [reflexivity|].
      intros x Hx. specialize (Hmax x Hx). lia.
Qed.

Lemma updateSidebar_filter (ed : CodeEditor) :
  is_line_count (blockCount (document ed)) ->
  updateSidebar ed =
    Ok (tt, set_breakpoints
              (reconcile_filter (blockCount (document ed)) (m_breakpoints ed)) ed).
Proof. intros Hn. unfold updateSidebar. apply updateSidebar_loop_filter; [done|lia]. Qed.

(** The loop gives the same result with any larger bound on its
    iterations. *)
Lemma updateSidebar_loop_fuel (fuel : nat) (ed : CodeEditor) :
  is_line_count (blockCount (document ed)) ->
  (size (m_breakpoints ed) < fuel)%nat ->
  updateSidebar_loop fuel ed = updateSidebar ed.
Proof.
  intros Hn Hsize. rewrite updateSidebar_filter by done.
  by apply updateSidebar_loop_filter.
Qed.

Lemma elem_of_reconcile_filter (n x : Z) (s : gset Z) :
  x ∈ reconcile_filter n s <-> x < n /\ x ∈ s.
Proof. unfold reconcile_filter. by rewrite elem_of_filter. Qed.


(** ** Setting and unsetting a breakpoint *)

Lemma find_end (s : gset Z) (x : Z) :
  bool_decide (StdSet.find s x ≠ StdSet.end_) = bool_decide (x ∈ s).
Proof.
  unfold StdSet.find, StdSet.end_. destruct (decide (x ∈ s)) as [Hin|Hnin].
  - rewrite !bool_decide_eq_true_2; done.
  - rewrite !bool_decide_eq_false_2; [done..|]. by intros [].
Qed.

Lemma find_elem (s : gset Z) (x : Z) : x ∈ s -> StdSet.find s x = Some x.
Proof. intros Hin. unfold StdSet.find. by rewrite decide_True. Qed.

Lemma find_not_elem (s : gset Z) (x : Z) : x ∉ s -> StdSet.find s x = StdSet.end_.
Proof. intros Hin. unfold StdSet.find. by rewrite decide_False. Qed.

Lemma erase_elem (s : gset Z) (x : Z) :
  x ∈ s -> StdSet.erase s (Some x) = Ok (s ∖ {[x]}).
Proof. intros Hin. unfold StdSet.erase. by rewrite decide_True. Qed.

Lemma contains_eq (x : Z) (ed : CodeEditor) :
  contains x ed = Ok (bool_decide (x ∈ m_breakpoints ed), ed).
Proof. unfold contains. unfold_M. simpl. by rewrite find_end. Qed.

Lemma forceAdd_eq (x : Z) (ed : CodeEditor) :
  forceAdd x ed = Ok (tt, set_breakpoints ({[x]} ∪ m_breakpoints ed) ed).
Proof. reflexivity. Qed.

Lemma forceRemove_eq (x : Z) (ed : CodeEditor) :
  forceRemove x ed = Ok (tt, set_breakpoints (m_breakpoints ed ∖ {[x]}) ed).
Proof.
  unfold forceRemove, set_unset_breakpoint. unfold_M. simpl.
  rewrite find_end.
  destruct (decide (x ∈ m_breakpoints ed)) as [Hin|Hnin].
  - rewrite bool_decide_eq_true_2 by done.
    by rewrite find_elem, erase_elem.
  - rewrite bool_decide_eq_false_2 by done.
    rewrite difference_disjoint_L by by apply disjoint_singleton_r.
    by rewrite set_breakpoints_same.
Qed.

Lemma toggle_eq (x : Z) (ed : CodeEditor) :
  toggle x ed = Ok (tt, set_breakpoints (toggled x (m_breakpoints ed)) ed).
Proof.
  unfold toggle, set_unset_breakpoint, toggled. unfold_M. simpl.
  rewrite find_end.
  destruct (decide (x ∈ m_breakpoints ed)) as [Hin|Hnin].
  - rewrite bool_decide_eq_true_2 by done.
    by rewrite find_elem, erase_elem.
  - by rewrite bool_decide_eq_false_2 by done.
Qed.

(** Any [forceState] other than 1 and 2 toggles. *)
Lemma set_unset_breakpoint_eq (forceState x : Z) (ed : CodeEditor) :
  set_unset_breakpoint forceState x ed =
    if forceState =? 1 then forceAdd x ed
    else if forceState =? 2 then forceRemove x ed
    else toggle x ed.
Proof.
  unfold forceAdd, forceRemove, toggle, set_unset_breakpoint. unfold_M.
  destruct (Z.eqb_spec forceState 1) as [->|H1]; [reflexivity|].
  destruct (Z.eqb_spec forceState 2) as [->|H2]; reflexivity.
Qed.

Lemma toggled_twice (x : Z) (s : gset Z) : toggled x (toggled x s) = s.
Proof.
  unfold toggled. destruct (decide (x ∈ s)) as [Hin|Hnin].
  - rewrite decide_False.
    + symmetry. by apply union_difference_singleton_L.
    + rewrite elem_of_difference, elem_of_singleton. tauto.
  - rewrite decide_True by (apply elem_of_union_l; by apply elem_of_singleton).
    apply set_eq. intros y.
    rewrite elem_of_difference, elem_of_union, elem_of_singleton.
    split; [tauto|]. intros Hy. split; [tauto|]. by intros ->.
Qed.

(** ** Walking the blocks *)

Lemma block_at_wf (d : QTextDocument) (n : Z) : wf_block d (block_at d n).
Proof.
  unfold block_at. destruct (Z.leb_spec 0 n), (Z.ltb_spec n (blockCount d));
    simpl; lia || exact I.
Qed.

Lemma block_at_valid (d : QTextDocument) (n : Z) :
  0 <= n < blockCount d -> block_at d n = Block n.
Proof.
  intros H. unfold block_at.
  destruct (Z.leb_spec 0 n), (Z.ltb_spec n (blockCount d)); simpl; lia || done.
Qed.

Lemma block_at_invalid (d : QTextDocument) (n : Z) :
  ~ 0 <= n < blockCount d -> block_at d n = InvalidBlock.
Proof.
  intros H. unfold block_at.
  destruct (Z.leb_spec 0 n), (Z.ltb_spec n (blockCount d)); simpl; lia || done.
Qed.

Lemma next_block_at (d : QTextDocument) (n : Z) :
  0 <= n -> next d (block_at d n) = block_at d (n + 1).
Proof.
  intros Hn. destruct (decide (n < blockCount d)) as [Hlt|Hge].
  - by rewrite block_at_valid by lia.
  - rewrite !block_at_invalid by lia. reflexivity.
Qed.

Lemma next_wf (d : QTextDocument) (b : QTextBlock) : wf_block d (next d b).
Proof. destruct b; simpl; [apply block_at_wf|exact I]. Qed.

(** Advancing [index] times from line [n] ends on line [n + index], which
    is invalid past the end of the document; a count that is not positive
    does not move. *)
Lemma walk_block_at (d : QTextDocument) (index n : Z) :
  0 <= n -> 0 <= index -> walk d index (block_at d n) = block_at d (n + index).
Proof.
  intros Hn Hi. unfold walk. destruct index as [|p|p]; [|clear Hi|lia].
  - simpl. by rewrite Z.add_0_r.
  - simpl. apply Pos.iter_ind.
    + by apply next_block_at.
    + intros q b ->. rewrite next_block_at by lia. f_equal. lia.
Qed.

Lemma walk_nonpositive (d : QTextDocument) (index : Z) (b : QTextBlock) :
  index <= 0 -> walk d index b = b.
Proof. intros Hi. unfold walk. destruct index; [done|lia|done]. Qed.

Lemma walk_wf (d : QTextDocument) (index : Z) (b : QTextBlock) :
  wf_block d b -> wf_block d (walk d index b).
Proof.
  intros Hb. unfold walk. destruct index as [|p|p]; simpl; try done.
  apply Pos.iter_invariant; [|done]. intros. apply next_wf.
Qed.

(** ** The click handler *)

(** Finding the block under a click changes nothing. *)
Lemma clicked_block_pure (pos_y : Z) (ed ed' : CodeEditor) (b : QTextBlock) :
  clicked_block pos_y ed = Ok (b, ed') -> ed' = ed /\ wf_block (document ed) b.
Proof.
  unfold clicked_block, firstVisibleBlock. unfold_M.
  destruct (click_index _ _ _ _) as [index| |]; [|discriminate..].
  intros [= <- <-]. split; [done|]. apply walk_wf, block_at_wf.
Qed.

Lemma breakpointClick_eq (pos_y forceState : Z) (ed : CodeEditor) (b : QTextBlock) :
  clicked_block pos_y ed = Ok (b, ed) ->
  breakpointClick pos_y forceState ed =
    if isValid b
    then (set_unset_breakpoint forceState (blockNumber b);; repaint) ed
    else Ok (tt, ed).
Proof.
  intros Hb. unfold breakpointClick. unfold mbind at 1. unfold M_bind at 1.
  rewrite Hb. by destruct (isValid b).
Qed.

(** The breakpoints a click on line [n] leaves. *)
Lemma set_unset_repaint_eq (forceState n : Z) (ed : CodeEditor) :
  exists ed',
    (set_unset_breakpoint forceState n;; repaint) ed = Ok (tt, ed') /\
    document ed' = document ed /\
    repaints ed' = S (repaints ed) /\
    m_breakpoints ed' =
      if forceState =? 1 then {[n]} ∪ m_breakpoints ed
      else if forceState =? 2 then m_breakpoints ed ∖ {[n]}
      else toggled n (m_breakpoints ed).
Proof.
  unfold mbind, M_bind. rewrite set_unset_breakpoint_eq.
  rewrite forceAdd_eq, forceRemove_eq, toggle_eq.
  destruct (forceState =? 1); [|destruct (forceState =? 2)];
    (eexists; split; [reflexivity|done]).
Qed.

(** The block under a click depends on the document and the scroll
    position only. *)
Lemma clicked_block_frame (pos_y : Z) (ed ed1 : CodeEditor) (b : QTextBlock) :
  document ed1 = document ed -> firstVisible ed1 = firstVisible ed ->
  contentOffset_y ed1 = contentOffset_y ed ->
  clicked_block pos_y ed = Ok (b, ed) -> clicked_block pos_y ed1 = Ok (b, ed1).
Proof.
  intros Hd Hfv Hoff. unfold clicked_block, firstVisibleBlock. unfold_M.
  rewrite Hd, Hfv, Hoff.
  destruct (click_index _ _ _ _) as [index| |]; [|discriminate..].
  by intros [= <-].
Qed.

(** A click on line [n]: the breakpoints it leaves, and the next click at
    the same place lands on line [n] again. *)
Lemma breakpointClick_on_block (pos_y forceState n : Z) (ed : CodeEditor) :
  clicked_block pos_y ed = Ok (Block n, ed) ->
  exists ed',
    breakpointClick pos_y forceState ed = Ok (tt, ed') /\
    clicked_block pos_y ed' = Ok (Block n, ed') /\
    repaints ed' = S (repaints ed) /\
    m_breakpoints ed' =
      if forceState =? 1 then {[n]} ∪ m_breakpoints ed
      else if forceState =? 2 then m_breakpoints ed ∖ {[n]}
      else toggled n (m_breakpoints ed).
Proof.
  intros Hb. rewrite (breakpointClick_eq _ _ _ _ Hb). simpl isValid.
  cbv iota. simpl blockNumber.
  unfold mbind, M_bind. rewrite set_unset_breakpoint_eq.
  rewrite forceAdd_eq, forceRemove_eq, toggle_eq.
  destruct (forceState =? 1); [|destruct (forceState =? 2)];
    (eexists; split; [reflexivity|]; split; [|done];
     by apply (clicked_block_frame pos_y ed)).
Qed.

(** A click changes the breakpoints only at the line it lands on, which is
    a line of the document. *)
Lemma breakpointClick_breakpoints (pos_y forceState : Z) (ed ed' : CodeEditor) :
  breakpointClick pos_y forceState ed = Ok (tt, ed') ->
  document ed' = document ed /\
  (m_breakpoints ed' = m_breakpoints ed \/
   exists n, 0 <= n < blockCount (document ed) /\
     clicked_block pos_y ed = Ok (Block n, ed) /\
     (m_breakpoints ed' = {[n]} ∪ m_breakpoints ed \/
      m_breakpoints ed' = m_breakpoints ed ∖ {[n]})).
Proof.
  destruct (clicked_block pos_y ed) as [[b ed1]| |] eqn:Hb.
  2,3: unfold breakpointClick, mbind, M_bind; by rewrite Hb.
  destruct (clicked_block_pure _ _ _ _ Hb) as [-> Hwf].
  rewrite (breakpointClick_eq _ _ _ _ Hb).
  destruct b as [n|]; simpl; [|intros [= <-]; by split; [|left]].
  destruct (set_unset_repaint_eq forceState n ed) as (ed2 & -> & Hd & _ & Hs).
  intros [= <-]. split; [done|]. right. exists n.
  split; [exact Hwf|]. split; [done|]. rewrite Hs. unfold toggled.
  destruct (forceState =? 1); [by left|].
  destruct (forceState =? 2); [by right|].
  destruct (decide (n ∈ m_breakpoints ed)); [by right|by left].
Qed.

(** ** The painter *)

Lemma to_int_not_OutOfFuel (z : Z) : to_int z ≠ OutOfFuel.
Proof. unfold to_int. by destruct (in_int z). Qed.

Lemma int_add_not_OutOfFuel (a b : Z) : int_add a b ≠ OutOfFuel.
Proof. apply to_int_not_OutOfFuel. Qed.

Lemma int_of_qreal_not_OutOfFuel (x : qreal) : int_of_qreal x ≠ OutOfFuel.
Proof. destruct x; simpl; try done. apply to_int_not_OutOfFuel. Qed.

Lemma same_but_pixmaps_refl (ed : CodeEditor) : same_but_pixmaps ed ed.
Proof. by repeat split. Qed.

Lemma same_but_pixmaps_drawPixmap (top : Z) (ed : CodeEditor) :
  exists ed', drawPixmap top ed = Ok (tt, ed') /\ same_but_pixmaps ed ed'.
Proof. eexists. split; [reflexivity|]. by repeat split. Qed.

Lemma keeps_breakpoints_trans {A} (r : res (A * CodeEditor)) (ed ed1 : CodeEditor) :
  same_but_pixmaps ed ed1 -> keeps_breakpoints r ed1 -> keeps_breakpoints r ed.
Proof.
  intros (H1 & H2 & H3 & H4 & H5). destruct r as [[a ed2]| |]; simpl; try done.
  intros (G1 & G2 & G3 & G4 & G5). repeat split; congruence.
Qed.

Lemma blocks_left_next (d : QTextDocument) (b : QTextBlock) :
  wf_block d b -> isValid b = true ->
  (blocks_left d (next d b) < blocks_left d b)%nat.
Proof.
  destruct b as [n|]; [|discriminate]. simpl. intros Hn _.
  destruct (decide (n + 1 < blockCount d)).
  - rewrite block_at_valid by lia. simpl. lia.
  - rewrite block_at_invalid by lia. simpl. lia.
Qed.

(** The part of an iteration that looks the line up and draws. *)
Lemma paint_line_keeps (d : QTextDocument) (b : QTextBlock) (number top bottom rect_top : Z)
    (ed : CodeEditor) :
  exists ed1,
    (if isVisible d b && (bottom >=? rect_top) then
       it ← breakpoints_get (fun s => Ok (StdSet.find s number));
       if bool_decide (it ≠ StdSet.end_) then drawPixmap top else mret tt
     else mret tt) ed = Ok (tt, ed1) /\
    same_but_pixmaps ed ed1.
Proof.
  destruct (isVisible d b && (bottom >=? rect_top)).
  - unfold_M. simpl. destruct (bool_decide _).
    + apply same_but_pixmaps_drawPixmap.
    + eexists. split; [reflexivity|apply same_but_pixmaps_refl].
  - eexists. split; [reflexivity|apply same_but_pixmaps_refl].
Qed.

Lemma paint_loop_keeps (fuel : nat) (rect_top rect_bottom : Z) :
  forall (b : QTextBlock) (number top bottom : Z) (ed : CodeEditor),
    wf_block (document ed) b ->
    (blocks_left (document ed) b < fuel)%nat ->
    keeps_breakpoints (paint_loop fuel rect_top rect_bottom b number top bottom ed) ed.
Proof.
  induction fuel as [|fuel IH]; intros b number top bottom ed Hwf Hfuel; [lia|].
  simpl. destruct (isValid b) eqn:Hvalid; simpl;
    [|apply same_but_pixmaps_refl].
  destruct (top <=? rect_bottom); [|apply same_but_pixmaps_refl].
  unfold mbind at 1. unfold M_bind at 1. unfold gets at 1.
  unfold mbind at 1. unfold M_bind at 1.
  destruct (paint_line_keeps (document ed) b number top bottom rect_top ed)
    as (ed1 & -> & Hsame).
  apply (keeps_breakpoints_trans _ _ ed1 Hsame).
  destruct Hsame as (_ & Hd & _).
  unfold mbind, M_bind, lift.
  destruct (int_of_qreal _) as [h| |] eqn:Eh;
    [|exact I|by apply int_of_qreal_not_OutOfFuel in Eh].
  destruct (int_add bottom h) as [bottom'| |] eqn:Eb;
    [|exact I|by apply int_add_not_OutOfFuel in Eb].
  destruct (int_add number 1) as [number'| |] eqn:En;
    [|exact I|by apply int_add_not_OutOfFuel in En].
  apply IH.
  - rewrite Hd. apply next_wf.
  - rewrite Hd. pose proof (blocks_left_next _ _ Hwf Hvalid). lia.
Qed.

Lemma breakpointAreaPaintEvent_keeps (rect_top rect_bottom : Z) (ed : CodeEditor) :
  keeps_breakpoints (breakpointAreaPaintEvent rect_top rect_bottom ed) ed.
Proof.
  unfold breakpointAreaPaintEvent, firstVisibleBlock. unfold_M.
  destruct (int_of_qreal (qreal_add _ _)) as [top| |] eqn:Et;
    [|exact I|by apply int_of_qreal_not_OutOfFuel in Et].
  destruct (int_of_qreal (blockBoundingRect_height _ _)) as [h| |] eqn:Eh;
    [|exact I|by apply int_of_qreal_not_OutOfFuel in Eh].
  destruct (int_add top h) as [bottom| |] eqn:Eb;
    [|exact I|by apply int_add_not_OutOfFuel in Eb].
  apply paint_loop_keeps; [apply block_at_wf|].
  pose proof (block_at_wf (document ed) (firstVisible ed)) as Hwf.
  destruct (block_at _ _); simpl in *; lia.
Qed.

(** ** The invariant of the breakpoints *)

Lemma run_preserves_valid (o : operation) (ed ed' : CodeEditor) :
  valid_breakpoints ed -> precondition ed o -> run o ed = Ok (tt, ed') ->
  valid_breakpoints ed'.
Proof.
  unfold valid_breakpoints. intros Hinv Hpre Hrun x.
  destruct o as [y|y|y| |d fv off|pos_y forceState]; simpl in *.
  - rewrite toggle_eq in Hrun. injection Hrun as <-. simpl. unfold toggled.
    destruct (decide (y ∈ m_breakpoints ed)).
    + intros [Hx _]%elem_of_difference. by apply Hinv.
    + intros [->%elem_of_singleton|Hx]%elem_of_union; [done|by apply Hinv].
  - rewrite forceAdd_eq in Hrun. injection Hrun as <-. simpl.
    intros [->%elem_of_singleton|Hx]%elem_of_union; [done|by apply Hinv].
  - rewrite forceRemove_eq in Hrun. injection Hrun as <-. simpl.
    intros [Hx _]%elem_of_difference. by apply Hinv.
  - injection Hrun as <-. simpl. unfold StdSet.clear.
    by intros ?%not_elem_of_empty.
  - rewrite updateSidebar_filter in Hrun by done. injection Hrun as <-. simpl.
    intros [Hlt Hx]%elem_of_reconcile_filter. specialize (Hinv x Hx). lia.
  - destruct (breakpointClick_breakpoints _ _ _ _ Hrun) as [-> Hs].
    destruct Hs as [->|(n & Hn & _ & [->| ->])].
    + apply Hinv.
    + intros [->%elem_of_singleton|Hx]%elem_of_union; [lia|by apply Hinv].
    + intros [Hx _]%elem_of_difference. by apply Hinv.
Qed.

Lemma reachable_valid (ed : CodeEditor) : reachable ed -> valid_breakpoints ed.
Proof.
  induction 1 as [ed Hempty|ed o ed' _ IH Hpre Hrun].
  - intros x. rewrite Hempty. by intros ?%not_elem_of_empty.
  - by apply (run_preserves_valid o ed ed').
Qed.

(** * Integer arithmetic in [qreal] *)

(** ** Binary digits *)

Lemma digits2_pos_size (p : positive) : digits2_pos p = Pos.size p.
Proof. induction p; simpl; congruence. Qed.

Lemma digits2_pos_bounds (p : positive) :
  2 ^ (Z.pos (digits2_pos p) - 1) <= Z.pos p < 2 ^ Z.pos (digits2_pos p).
Proof.
  rewrite digits2_pos_size. split.
  - pose proof (Pos.size_le p) as H.
    apply Pos2Z.pos_le_pos in H. rewrite Pos2Z.inj_pow in H.
    change (Z.pos p~0) with (2 * Z.pos p) in H.
    pose proof (Pos2Z.is_pos (Pos.size p)) as Hpos.
    set (x := Z.pos (Pos.size p)) in *.
    replace x with (Z.succ (x - 1)) in H by lia.
    rewrite Z.pow_succ_r in H by lia. lia.
  - pose proof (Pos.size_gt p) as H.
    apply Pos2Z.pos_lt_pos in H. by rewrite Pos2Z.inj_pow in H.
Qed.

Lemma Zdigits2_pos (q d : Z) :
  2 ^ (d - 1) <= q < 2 ^ d -> 0 < d -> Zdigits2 q = d.
Proof.
  intros [Hlo Hhi] Hd.
  assert (0 < q) by (pose proof (Z.pow_pos_nonneg 2 (d - 1)); lia).
  destruct q as [|p|p]; try lia. simpl.
  pose proof (digits2_pos_bounds p) as [Hlo' Hhi'].
  destruct (Z.lt_trichotomy (Z.pos (digits2_pos p)) d) as [Hlt|[Heq|Hgt]];
    [|done|].
  - assert (2 ^ Z.pos (digits2_pos p) <= 2 ^ (d - 1))
      by (apply Z.pow_le_mono_r; lia). lia.
  - assert (2 ^ d <= 2 ^ (Z.pos (digits2_pos p) - 1))
      by (apply Z.pow_le_mono_r; lia). lia.
Qed.

(** ** Shifting a mantissa *)

Lemma iter_xO_mul (m d : positive) :
  Z.pos (Pos.iter xO m d) = Z.pos m * 2 ^ Z.pos d.
Proof.
  induction d as [|d IH] using Pos.peano_ind.
  - simpl. lia.
  - rewrite Pos.iter_succ, Pos2Z.inj_xO, IH, Pos2Z.inj_succ.
    rewrite Z.pow_succ_r by lia. lia.
Qed.

Lemma shr_1_double (m : Z) :
  0 <= m ->
  shr_1 (Build_shr_record (2 * m) false false) = Build_shr_record m false false.
Proof. intros Hm. destruct m as [|p|p]; [reflexivity|reflexivity|lia]. Qed.

Lemma pow2_xI (n : positive) : 2 ^ Z.pos n~1 = 2 * (2 ^ Z.pos n * 2 ^ Z.pos n).
Proof.
  replace (Z.pos n~1) with (1 + (Z.pos n + Z.pos n)) by lia.
  by rewrite !Z.pow_add_r, Z.pow_1_r by lia.
Qed.

Lemma pow2_xO (n : positive) : 2 ^ Z.pos n~0 = 2 ^ Z.pos n * 2 ^ Z.pos n.
Proof.
  replace (Z.pos n~0) with (Z.pos n + Z.pos n) by lia.
  by rewrite Z.pow_add_r by lia.
Qed.

(** Shifting out [n] bits that are all zero is exact. *)
Lemma iter_shr_1_exact (n : positive) :
  forall m, 0 <= m ->
    SpecFloat.iter_pos shr_1 n (Build_shr_record (m * 2 ^ Z.pos n) false false)
      = Build_shr_record m false false.
Proof.
  induction n as [n IH|n IH|]; intros m Hm.
  - change (SpecFloat.iter_pos shr_1 n~1 ?x)
      with (SpecFloat.iter_pos shr_1 n (SpecFloat.iter_pos shr_1 n (shr_1 x))).
    pose proof (Z.pow_pos_nonneg 2 (Z.pos n)) as Hpow.
    rewrite pow2_xI.
    replace (m * (2 * (2 ^ Z.pos n * 2 ^ Z.pos n)))
      with (2 * (m * 2 ^ Z.pos n * 2 ^ Z.pos n)) by lia.
    rewrite shr_1_double by nia. rewrite IH by nia. by apply IH.
  - change (SpecFloat.iter_pos shr_1 n~0 ?x)
      with (SpecFloat.iter_pos shr_1 n (SpecFloat.iter_pos shr_1 n x)).
    pose proof (Z.pow_pos_nonneg 2 (Z.pos n)) as Hpow.
    rewrite pow2_xO, Z.mul_assoc. rewrite IH by nia. by apply IH.
  - change (SpecFloat.iter_pos shr_1 1 ?x) with (shr_1 x).
    rewrite Z.pow_1_r, Z.mul_comm. by apply shr_1_double.
Qed.

Lemma shr_exact (m e n : Z) :
  0 <= m -> 0 <= n ->
  shr (Build_shr_record (m * 2 ^ n) false false) e n
    = (Build_shr_record m false false, e + n).
Proof.
  intros Hm Hn. destruct n as [|p|p]; [|clear Hn|lia].
  - simpl. by rewrite Z.mul_1_r, Z.add_0_r.
  - unfold shr. by rewrite iter_shr_1_exact.
Qed.

(** ** Rounding a value that needs none *)

Lemma fexp_eq (e : Z) : -1021 <= e -> fexp 53 1024 e = e - 53.
Proof. intros He. unfold fexp, emin. lia. Qed.

Lemma shr_fexp_eq (q e d : Z) (l : location) :
  Zdigits2 q = d -> -1021 <= d + e ->
  shr_fexp 53 1024 q e l = shr (shr_record_of_loc q l) e (d - 53).
Proof.
  intros Hd He. unfold shr_fexp. rewrite Hd, fexp_eq by done. f_equal. lia.
Qed.

Lemma Zdigits2_bounds (z : Z) :
  0 < z -> 0 < Zdigits2 z /\ 2 ^ (Zdigits2 z - 1) <= z < 2 ^ Zdigits2 z.
Proof.
  intros Hz. destruct z as [|p|p]; try lia. simpl. split; [lia|].
  apply digits2_pos_bounds.
Qed.

Lemma Zdigits2_le (z n : Z) : 0 < z < 2 ^ n -> 0 <= n -> Zdigits2 z <= n.
Proof.
  intros [Hz Hlt] Hn. destruct (Zdigits2_bounds z Hz) as [Hd [Hlo _]].
  destruct (Z_le_gt_dec (Zdigits2 z) n) as [|Hgt]; [done|].
  assert (2 ^ n <= 2 ^ (Zdigits2 z - 1)) by (apply Z.pow_le_mono_r; lia). lia.
Qed.

Lemma Zdigits2_shift (z j : Z) :
  0 < z -> 0 <= j -> Zdigits2 (z * 2 ^ j) = Zdigits2 z + j.
Proof.
  intros Hz Hj. destruct (Zdigits2_bounds z Hz) as [Hd [Hlo Hhi]].
  pose proof (Z.pow_pos_nonneg 2 j) as Hpow.
  apply Zdigits2_pos; [|lia].
  replace (Zdigits2 z + j - 1) with (Zdigits2 z - 1 + j) by lia.
  rewrite !Z.pow_add_r by lia. nia.
Qed.

(** A mantissa of 53 digits followed by [n] zero bits rounds to itself. *)
Lemma binary_round_aux_exact (s : bool) (c e n : Z) :
  0 < c -> Zdigits2 c = 53 -> 0 <= n -> -1074 <= e + n <= 971 ->
  binary_round_aux 53 1024 s (c * 2 ^ n) e loc_Exact
    = S754_finite s (Z.to_pos c) (e + n).
Proof.
  intros Hpos Hc Hn He.
  unfold binary_round_aux.
  rewrite (shr_fexp_eq _ _ (53 + n)) by (rewrite ?Zdigits2_shift, ?Hc; lia).
  replace (53 + n - 53) with n by lia. simpl shr_record_of_loc.
  rewrite shr_exact by lia. simpl shr_m. simpl loc_of_shr_record.
  simpl round_nearest_even.
  rewrite (shr_fexp_eq _ _ 53 _ Hc) by lia.
  simpl. destruct c as [|p|p]; try lia. simpl.
  destruct (Z.leb_spec (e + n) (1024 - 53)); [done|lia].
Qed.

Lemma shl_align_eq (m : positive) (e e' : Z) :
  shl_align m e e' =
    if e' <? e then (Z.to_pos (Z.pos m * 2 ^ (e - e')), e') else (m, e).
Proof.
  unfold shl_align. destruct (e' - e) as [|d|d] eqn:Hd.
  - destruct (Z.ltb_spec e' e); [lia|done].
  - destruct (Z.ltb_spec e' e); [lia|done].
  - destruct (Z.ltb_spec e' e); [|lia].
    replace (e - e') with (Z.pos d) by lia.
    by rewrite <- iter_xO_mul, Pos2Z.id.
Qed.

Lemma shl_align_fst (m : positive) (e e' : Z) :
  e' <= e -> Z.pos (fst (shl_align m e e')) = Z.pos m * 2 ^ (e - e').
Proof.
  intros He. rewrite shl_align_eq. destruct (Z.ltb_spec e' e); simpl.
  - pose proof (Z.pow_pos_nonneg 2 (e - e')). rewrite Z2Pos.id; nia.
  - replace (e - e') with 0 by lia. lia.
Qed.

(** The mantissa of 53 digits of a positive integer below [2 ^ 53]. *)
Lemma int_mantissa_digits (z : Z) :
  0 < z < 2 ^ 53 ->
  0 < z * 2 ^ (53 - Zdigits2 z) /\ Zdigits2 (z * 2 ^ (53 - Zdigits2 z)) = 53 /\
  1 <= Zdigits2 z <= 53.
Proof.
  intros [Hz Hlt]. destruct (Zdigits2_bounds z Hz) as [Hd _].
  pose proof (Zdigits2_le z 53 (conj Hz Hlt)).
  pose proof (Z.pow_pos_nonneg 2 (53 - Zdigits2 z)).
  split; [nia|]. split; [|lia]. rewrite Zdigits2_shift by lia. lia.
Qed.

(** Rounding [m * 2 ^ e] when it is an integer below [2 ^ 53]. *)
Lemma binary_round_int (s : bool) (m : positive) (e z : Z) :
  0 < z < 2 ^ 53 -> -1000 <= e <= 0 -> Z.pos m = z * 2 ^ (- e) ->
  binary_round 53 1024 s m e =
    S754_finite s (Z.to_pos (z * 2 ^ (53 - Zdigits2 z))) (Zdigits2 z - 53).
Proof.
  intros Hz He Hm.
  destruct (int_mantissa_digits z Hz) as (Hc & Hdc & Hdz).
  unfold binary_round.
  change (Z.pos (digits2_pos m)) with (Zdigits2 (Z.pos m)).
  rewrite Hm, Zdigits2_shift by lia.
  replace (Zdigits2 z + - e + e) with (Zdigits2 z) by lia.
  rewrite fexp_eq by lia. rewrite shl_align_eq.
  destruct (Z.ltb_spec (Zdigits2 z - 53) e) as [Hlt|Hge].
  - rewrite Hm.
    replace (z * 2 ^ (- e) * 2 ^ (e - (Zdigits2 z - 53)))
      with (z * 2 ^ (53 - Zdigits2 z)).
    + rewrite Z2Pos.id by done.
      rewrite <- (Z.mul_1_r (z * 2 ^ (53 - Zdigits2 z))) at 1.
      change 1 with (2 ^ 0) at 1.
      rewrite binary_round_aux_exact by (done || lia).
      by rewrite Z.add_0_r.
    + rewrite <- Z.mul_assoc, <- Z.pow_add_r by lia. do 2 f_equal. lia.
  - rewrite Hm.
    replace (z * 2 ^ (- e))
      with (z * 2 ^ (53 - Zdigits2 z) * 2 ^ (Zdigits2 z - 53 - e)).
    + rewrite binary_round_aux_exact by (done || lia). f_equal. lia.
    + rewrite <- Z.mul_assoc, <- Z.pow_add_r by lia. do 2 f_equal. lia.
Qed.

Lemma qreal_of_int_int_float (z : Z) :
  Z.abs z < 2 ^ 53 -> qreal_of_int z = int_float z.
Proof.
  intros Hz. unfold qreal_of_int, int_float, binary_normalize, qreal_prec, qreal_emax.
  destruct z as [|p|p]; [done| |].
  - rewrite (binary_round_int _ _ _ (Z.pos p)); [done|lia|lia|simpl; lia].
  - rewrite (binary_round_int _ _ _ (Z.pos p)); [done|lia|lia|simpl; lia].
Qed.

Lemma Zdigits2_abs (z : Z) : Zdigits2 (Z.abs z) = Zdigits2 z.
Proof. by destruct z. Qed.

Lemma binary_normalize_int (M e z : Z) :
  -1000 <= e <= 0 -> Z.abs z < 2 ^ 53 -> M = z * 2 ^ (- e) ->
  binary_normalize 53 1024 M e false = int_float z.
Proof.
  intros He Hz HM. pose proof (Z.pow_pos_nonneg 2 (- e)) as Hpow.
  unfold binary_normalize, int_float. destruct M as [|m|m].
  - assert (z = 0) as -> by nia. done.
  - assert (0 < z) by nia.
    destruct (Z.eqb_spec z 0); [lia|]. destruct (Z.ltb_spec z 0); [lia|].
    rewrite (binary_round_int _ _ _ z) by lia. by rewrite Z.abs_eq by lia.
  - assert (z < 0) by nia.
    destruct (Z.eqb_spec z 0); [lia|]. destruct (Z.ltb_spec z 0); [|lia].
    rewrite (binary_round_int _ _ _ (Z.abs z)) by lia.
    by rewrite Zdigits2_abs.
Qed.

(** The mantissa of [int_float a] aligned to the exponent [ez], with its
    sign. *)
Lemma int_float_aligned (a ez : Z) :
  a ≠ 0 -> Z.abs a < 2 ^ 53 -> ez <= Zdigits2 a - 53 ->
  cond_Zopp (a <? 0)
    (Z.pos (fst (shl_align (Z.to_pos (Z.abs a * 2 ^ (53 - Zdigits2 a)))
                           (Zdigits2 a - 53) ez)))
  = a * 2 ^ (- ez).
Proof.
  intros Ha Hlt Hez.
  destruct (int_mantissa_digits (Z.abs a)) as (Hc & _ & Hd); [lia|].
  rewrite Zdigits2_abs in *.
  rewrite shl_align_fst, Z2Pos.id by done.
  rewrite <- Z.mul_assoc, <- Z.pow_add_r by lia.
  replace (53 - Zdigits2 a + (Zdigits2 a - 53 - ez)) with (- ez) by lia.
  unfold cond_Zopp. destruct (Z.ltb_spec a 0); lia.
Qed.

Lemma int_float_exponent (a : Z) :
  a ≠ 0 -> Z.abs a < 2 ^ 53 -> -52 <= Zdigits2 a - 53 <= 0.
Proof.
  intros Ha Hlt.
  destruct (int_mantissa_digits (Z.abs a)) as (_ & _ & Hd); [lia|].
  rewrite Zdigits2_abs in Hd. lia.
Qed.

Lemma qreal_add_int_float (a b : Z) :
  Z.abs a < 2 ^ 53 -> Z.abs b < 2 ^ 53 -> Z.abs (a + b) < 2 ^ 53 ->
  qreal_add (int_float a) (int_float b) = int_float (a + b).
Proof.
  intros Ha Hb Hab. unfold qreal_add, qreal_prec, qreal_emax.
  unfold int_float at 1 2.
  destruct (Z.eqb_spec a 0) as [->|Ha0], (Z.eqb_spec b 0) as [->|Hb0]; simpl SFadd.
  - done.
  - rewrite Z.add_0_l. unfold int_float. by destruct (Z.eqb_spec b 0).
  - rewrite Z.add_0_r. unfold int_float. by destruct (Z.eqb_spec a 0).
  - pose proof (int_float_exponent a Ha0 Ha). pose proof (int_float_exponent b Hb0 Hb).
    rewrite !int_float_aligned by (done || lia).
    apply binary_normalize_int; [lia|done|lia].
Qed.

Lemma qreal_sub_int_float (a b : Z) :
  Z.abs a < 2 ^ 53 -> Z.abs b < 2 ^ 53 -> Z.abs (a - b) < 2 ^ 53 ->
  qreal_sub (int_float a) (int_float b) = int_float (a - b).
Proof.
  intros Ha Hb Hab. unfold qreal_sub, qreal_prec, qreal_emax.
  unfold int_float at 1 2.
  destruct (Z.eqb_spec a 0) as [->|Ha0], (Z.eqb_spec b 0) as [->|Hb0]; simpl SFsub.
  - done.
  - unfold int_float. destruct (Z.eqb_spec (0 - b) 0); [lia|].
    replace (0 - b) with (- b) by lia.
    rewrite Z.abs_opp. destruct b; done.
  - rewrite Z.sub_0_r. unfold int_float. by destruct (Z.eqb_spec a 0).
  - pose proof (int_float_exponent a Ha0 Ha). pose proof (int_float_exponent b Hb0 Hb).
    rewrite !int_float_aligned by (done || lia).
    apply binary_normalize_int; [lia|done|lia].
Qed.

(** ** Rounding a quotient *)

Lemma binary_round_aux_eq (s : bool) (m e : Z) (l : location) :
  binary_round_aux 53 1024 s m e l =
    let '(mrs, e') := shr_fexp 53 1024 m e l in
    round_finish s (round_nearest_even (shr_m mrs) (loc_of_shr_record mrs)) e'.
Proof. reflexivity. Qed.

Lemma round_finish_eq (s : bool) (q e : Z) :
  2 ^ 52 <= q <= 2 ^ 53 -> -1000 <= e <= 900 ->
  exists mf n,
    round_finish s q e = S754_finite s mf (e + n) /\
    0 <= n <= 1 /\ Z.pos mf * 2 ^ n = q.
Proof.
  intros Hq He. unfold round_finish.
  destruct (Z_lt_le_dec q (2 ^ 53)) as [Hlt|Hge].
  - rewrite (shr_fexp_eq _ _ 53) by (try apply Zdigits2_pos; lia).
    change (53 - 53) with 0. simpl shr. simpl shr_m.
    destruct q as [|p|p]; try lia.
    exists p, 0. rewrite Z.add_0_r.
    destruct (Z.leb_spec e (1024 - 53)); [|lia]. split; [done|]. lia.
  - assert (q = 2 ^ 52 * 2 ^ 1) as -> by lia.
    rewrite (shr_fexp_eq _ _ 54) by (try apply Zdigits2_pos; lia).
    change (54 - 53) with 1. simpl shr_record_of_loc.
    rewrite shr_exact by lia. simpl shr_m.
    exists (Z.to_pos (2 ^ 52)), 1.
    destruct (Z.leb_spec (e + 1) (1024 - 53)); [|lia]. split; [done|]. lia.
Qed.

Lemma shr_m_of_loc (q : Z) (l : location) : shr_m (shr_record_of_loc q l) = q.
Proof. by destruct l as [|[]]. Qed.

Lemma loc_of_shr_record_of_loc (q : Z) (l : location) :
  loc_of_shr_record (shr_record_of_loc q l) = l.
Proof. by destruct l as [|[]]. Qed.

Lemma round_nearest_even_bounds (q : Z) (l : location) :
  q <= round_nearest_even q l <= q + 1.
Proof. destruct l as [|[]]; simpl; try destruct (Z.even q); lia. Qed.

(** Dropping the last bit of a mantissa and rounding. *)
Lemma round_nearest_even_half (q : Z) (l : location) :
  1 < q ->
  let mrs := shr_1 (shr_record_of_loc q l) in
  let q1 := round_nearest_even (shr_m mrs) (loc_of_shr_record mrs) in
  q / 2 <= q1 <= q / 2 + 1 /\ 2 * q1 <= q + 1.
Proof.
  intros Hq. destruct q as [|p|p]; try lia.
  destruct p as [p|p|]; try lia.
  - assert (Z.pos p~1 / 2 = Z.pos p) as -> by
      (rewrite Pos2Z.inj_xI; symmetry; apply (Z.div_unique _ 2 _ 1); lia).
    destruct l as [|[]]; simpl; try lia; destruct p; lia.
  - assert (Z.pos p~0 / 2 = Z.pos p) as -> by
      (rewrite Pos2Z.inj_xO; symmetry; apply (Z.div_unique _ 2 _ 0); lia).
    destruct l as [|[]]; simpl; lia.
Qed.

(** Rounding a mantissa [q] of 53 or 54 digits moves it by less than one
    unit of the last place kept. *)
Lemma binary_round_aux_near (s : bool) (q e : Z) (l : location) :
  2 ^ 52 <= q < 2 ^ 54 -> -1000 <= e <= 800 ->
  exists mf n,
    binary_round_aux 53 1024 s q e l = S754_finite s mf (e + n) /\
    0 <= n <= 2 /\
    Z.pos mf * 2 ^ n <= q + 1 /\ q < (Z.pos mf + 1) * 2 ^ n.
Proof.
  intros Hq He. rewrite binary_round_aux_eq.
  destruct (Z_lt_le_dec q (2 ^ 53)) as [Hlt|Hge].
  - rewrite (shr_fexp_eq _ _ 53) by (try apply Zdigits2_pos; lia).
    change (53 - 53) with 0. simpl shr. cbv iota beta.
    rewrite shr_m_of_loc, loc_of_shr_record_of_loc.
    pose proof (round_nearest_even_bounds q l) as Hq1.
    destruct (round_finish_eq s (round_nearest_even q l) e) as (mf & n & -> & Hn & Hmf);
      [lia|lia|].
    exists mf, n. split; [done|]. split; [lia|].
    pose proof (Z.pow_pos_nonneg 2 n). nia.
  - rewrite (shr_fexp_eq _ _ 54) by (try apply Zdigits2_pos; lia).
    change (54 - 53) with 1. unfold shr.
    change (SpecFloat.iter_pos shr_1 1 ?x) with (shr_1 x). cbv iota beta.
    destruct (round_nearest_even_half q l) as [Hq1 Hq1']; [lia|].
    set (q1 := round_nearest_even _ _) in *.
    assert (2 ^ 52 <= q / 2 < 2 ^ 53) as Hhalf.
    { split; [apply Z.div_le_lower_bound; lia|apply Z.div_lt_upper_bound; lia]. }
    destruct (round_finish_eq s q1 (e + 1)) as (mf & n & -> & Hn & Hmf);
      [lia|lia|].
    exists mf, (1 + n). split; [f_equal; lia|]. split; [lia|].
    rewrite Z.pow_add_r, Z.pow_1_r by lia.
    pose proof (Z.pow_pos_nonneg 2 n).
    pose proof (Z.mul_div_le q 2). pose proof (Z.mul_succ_div_gt q 2).
    nia.
Qed.

(** ** The integer part of a rounded quotient *)

(** A mantissa [mf] within one unit of the last place of [A * 2 ^ k / h]
    has the integer part of [A / h], for [h] below [2 ^ k]. *)
Lemma quotient_integer_part (A h k n mf q : Z) :
  0 <= A -> 0 < h < 2 ^ k -> 0 <= n <= k ->
  q = A * 2 ^ k / h ->
  mf * 2 ^ n <= q + 1 -> q < (mf + 1) * 2 ^ n ->
  mf / 2 ^ (k - n) = A / h.
Proof.
  intros HA Hh Hn Hq Hup Hlo.
  pose proof (Z.pow_pos_nonneg 2 (k - n)) as HP.
  pose proof (Z.pow_pos_nonneg 2 n) as HN.
  assert (2 ^ k = 2 ^ (k - n) * 2 ^ n) as HK
    by (rewrite <- Z.pow_add_r by lia; f_equal; lia).
  set (P := 2 ^ (k - n)) in *. set (N := 2 ^ n) in *. set (K := 2 ^ k) in *.
  set (Q := A / h).
  pose proof (Z.div_mod A h) as HQ. pose proof (Z.mod_pos_bound A h) as Hr.
  fold Q in HQ. set (r := A mod h) in *.
  pose proof (Z.mul_div_le (A * K) h) as Hq1.
  pose proof (Z.mul_succ_div_gt (A * K) h) as Hq2.
  rewrite <- Hq in Hq1, Hq2.
  assert (q + 1 < (Q + 1) * K) as Hqup.
  { assert (h * q < h * ((Q + 1) * K - 1)) as H by nia.
    apply Z.mul_lt_mono_pos_l in H; lia. }
  assert (Q * K < q + 1) as Hqlo.
  { assert (h * (Q * K) < h * (q + 1)) as H by nia.
    apply Z.mul_lt_mono_pos_l in H; lia. }
  assert (mf < (Q + 1) * P) as Hmf1.
  { assert (mf * N < (Q + 1) * P * N) as H by nia.
    apply Z.mul_lt_mono_pos_r in H; lia. }
  assert (Q * P < mf + 1) as Hmf2.
  { assert (Q * P * N < (mf + 1) * N) as H by nia.
    apply Z.mul_lt_mono_pos_r in H; lia. }
  symmetry. apply (Z.div_unique_pos mf P Q (mf - P * Q)); lia.
Qed.

Lemma SFdiv_core_binary_eq (m1 e1 m2 e2 : Z) :
  0 < m2 -> Zdigits2 m1 = 53 -> Zdigits2 m2 = 53 ->
  -52 <= e1 <= 0 -> -52 <= e2 <= 0 ->
  SFdiv_core_binary 53 1024 m1 e1 m2 e2 =
    (m1 * 2 ^ 53 / m2, e1 - e2 - 53, new_location m2 (m1 * 2 ^ 53 mod m2)).
Proof.
  intros Hm2 Hd1 Hd2 He1 He2. unfold SFdiv_core_binary.
  rewrite Hd1, Hd2, fexp_eq by lia.
  rewrite Z.min_l by lia.
  replace (e1 - e2 - (53 + e1 - (53 + e2) - 53)) with 53 by lia.
  rewrite Z.shiftl_mul_pow2 by lia.
  unfold Z.div, Z.modulo. destruct (Z.div_eucl _ _). simpl.
  do 2 f_equal. lia.
Qed.

(** The quotient of two integers computed in [qreal] and converted to an
    [int] is their truncated integer quotient. *)
Lemma int_of_qreal_div_int_float (a h : Z) :
  Z.abs a < 2 ^ 52 -> 0 < h < 2 ^ 53 ->
  int_of_qreal (qreal_div (int_float a) (int_float h)) = to_int (a ÷ h).
Proof.
  intros Ha Hh. unfold qreal_div, qreal_prec, qreal_emax, int_float.
  destruct (Z.eqb_spec h 0) as [|_]; [lia|].
  destruct (Z.ltb_spec h 0) as [|_]; [lia|].
  rewrite (Z.abs_eq h) by lia.
  destruct (Z.eqb_spec a 0) as [->|Ha0]; [done|].
  destruct (int_mantissa_digits (Z.abs a)) as (Hm1 & Hd1 & Hda); [lia|].
  destruct (int_mantissa_digits h) as (Hm2 & Hd2 & Hdh); [lia|].
  rewrite Zdigits2_abs in *.
  assert (Zdigits2 a <= 52) as Hda' by
    (rewrite <- Zdigits2_abs; apply Zdigits2_le; lia).
  set (da := Zdigits2 a) in *. set (dh := Zdigits2 h) in *.
  set (m1 := Z.abs a * 2 ^ (53 - da)) in *. set (m2 := h * 2 ^ (53 - dh)) in *.
  simpl SFdiv. rewrite !Z2Pos.id by done.
  rewrite SFdiv_core_binary_eq by (done || lia).
  set (q := m1 * 2 ^ 53 / m2).
  destruct (Zdigits2_bounds m1 Hm1) as [_ Hb1].
  destruct (Zdigits2_bounds m2 Hm2) as [_ Hb2].
  rewrite Hd1 in Hb1. rewrite Hd2 in Hb2. change (53 - 1) with 52 in *.
  assert (2 ^ 52 <= q < 2 ^ 54) as Hq.
  { split; [apply Z.div_le_lower_bound|apply Z.div_lt_upper_bound]; lia. }
  destruct (binary_round_aux_near (xorb (a <? 0) false) q (da - 53 - (dh - 53) - 53)
              (new_location m2 (m1 * 2 ^ 53 mod m2)))
    as (mf & n & -> & Hn & Hup & Hlo); [done|lia|].
  simpl int_of_qreal. f_equal.
  rewrite Z.shiftl_div_pow2 by lia.
  replace (- (da - 53 - (dh - 53) - 53 + n)) with (53 + dh - da - n) by lia.
  rewrite (quotient_integer_part (Z.abs a) h (53 + dh - da) n (Z.pos mf) q).
  - rewrite Z.quot_div by lia. unfold cond_Zopp.
    rewrite (Z.abs_eq h), Bool.xorb_false_r by lia.
    destruct (Z.ltb_spec a 0).
    + rewrite Z.sgn_neg, Z.sgn_pos by lia. lia.
    + rewrite !Z.sgn_pos by lia. lia.
  - lia.
  - split; [lia|]. destruct (Zdigits2_bounds h) as [_ [_ Hlt]]; [lia|].
    fold dh in Hlt.
    assert (2 ^ dh <= 2 ^ (53 + dh - da)) by (apply Z.pow_le_mono_r; lia). lia.
  - lia.
  - unfold q, m1, m2.
    replace (Z.abs a * 2 ^ (53 - da) * 2 ^ 53)
      with (Z.abs a * 2 ^ (53 + dh - da) * 2 ^ (53 - dh)).
    + rewrite Z.div_mul_cancel_r; [done|lia|].
      pose proof (Z.pow_pos_nonneg 2 (53 - dh)). lia.
    + rewrite <- !Z.mul_assoc, <- !Z.pow_add_r by lia. do 2 f_equal. lia.
  - done.
  - done.
Qed.

(** ** The block index of a click, on integers *)

Lemma in_int_is_int (z : Z) : is_int z -> in_int z = true.
Proof.
  unfold is_int, in_int. intros [H1 H2].
  apply andb_true_intro. split; by apply Z.leb_le.
Qed.

Lemma to_int_is_int (z : Z) : is_int z -> to_int z = Ok z.
Proof. intros Hz. unfold to_int. by rewrite in_int_is_int. Qed.

Lemma is_int_bound (z : Z) : is_int z -> Z.abs z < 2 ^ 51.
Proof. unfold is_int, int_min, int_max. lia. Qed.

(** For an [int] position, and an offset and a height that are integers,
    the block index is the integer quotient, truncated towards zero, of the
    position less or plus the offset by the height, when it fits [int]. *)
Lemma click_index_int (atFirstLine : bool) (pos_y offset height : Z) :
  is_int pos_y -> Z.abs offset < 2 ^ 51 -> 0 < height < 2 ^ 53 ->
  click_index atFirstLine pos_y (qreal_of_int offset) (qreal_of_int height) =
    to_int (if atFirstLine then (pos_y - offset) ÷ height
            else (pos_y + offset) ÷ height).
Proof.
  intros Hy%is_int_bound Ho Hh. unfold click_index.
  rewrite !qreal_of_int_int_float by lia.
  destruct atFirstLine.
  - rewrite qreal_sub_int_float by lia.
    apply int_of_qreal_div_int_float; lia.
  - rewrite qreal_add_int_float by lia.
    apply int_of_qreal_div_int_float; lia.
Qed.


(** The block under a click, for a valid first visible line and for an
    offset and a height that are integers. *)
Lemma clicked_block_int (ed : CodeEditor) (pos_y offset height : Z) :
  0 <= firstVisible ed < blockCount (document ed) ->
  is_int pos_y -> Z.abs offset < 2 ^ 51 -> 0 < height < 2 ^ 53 ->
  contentOffset_y ed = qreal_of_int offset ->
  blockHeight (document ed) (firstVisible ed) = qreal_of_int height ->
  clicked_block pos_y ed =
    match to_int (adjusted_offset (firstVisible ed) pos_y offset ÷ height) with
    | Ok index => Ok (walk (document ed) index (Block (firstVisible ed)), ed)
    | Undefined => Undefined
    | OutOfFuel => OutOfFuel
    end.
Proof.
  intros Hfv Hy Ho Hh Hoff Hheight.
  unfold clicked_block, firstVisibleBlock. unfold_M.
  rewrite block_at_valid by done. simpl blockBoundingRect_height.
  rewrite Hoff, Hheight, click_index_int by done.
  unfold findBlockByLineNumber0, adjusted_offset.
  rewrite (block_at_valid _ 0) by lia.
  destruct (Z.eqb_spec (firstVisible ed) 0) as [H0|H0].
  - rewrite bool_decide_eq_true_2 by (by rewrite H0). by destruct (to_int _).
  - rewrite bool_decide_eq_false_2 by congruence. by destruct (to_int _).
Qed.

(** * The claims of the specification *)

(** ** Reconciliation *)

(** C1. For every breakpoint set [S] and every line count [N], the loop of
    [updateSidebar] run on a document of [N] lines returns; every
    breakpoint it leaves is one of [S] and is below [N], and every
    breakpoint of [S] below [N] is still there. From [{2, 5, 9}] and 6
    lines it leaves [{2, 5}]. *)
Theorem reconcile_postcondition (S : gset Z) (N : Z) (ed : CodeEditor) :
  m_breakpoints ed = S ->
  blockCount (document ed) = N ->
  is_line_count N ->
  exists S',
    updateSidebar ed = Ok (tt, set_breakpoints S' ed) /\
    (forall x, x ∈ S' -> x ∈ S /\ x < N) /\
    (forall x, x ∈ S -> x < N -> x ∈ S') /\
    (S = {[2; 5; 9]} -> N = 6 -> S' = {[2; 5]}).
Proof.
  intros <- <- Hn. eexists. split; [by apply updateSidebar_filter|].
  split; [|split].
  - intros x [? ?]%elem_of_reconcile_filter. by split.
  - intros x Hx Hlt. by apply elem_of_reconcile_filter.
  - intros -> ->. apply set_eq. intros x.
    rewrite elem_of_reconcile_filter, !elem_of_union, !elem_of_singleton. lia.
Qed.

Lemma reconcile_postcondition_witness :
  m_breakpoints (plain_editor {[2; 5; 9]} 6) = {[2; 5; 9]} /\
  blockCount (document (plain_editor {[2; 5; 9]} 6)) = 6 /\
  is_line_count 6 /\
  exists S',
    updateSidebar (plain_editor {[2; 5; 9]} 6)
      = Ok (tt, set_breakpoints S' (plain_editor {[2; 5; 9]} 6)) /\
    (forall x, x ∈ S' -> x ∈ ({[2; 5; 9]} : gset Z) /\ x < 6) /\
    (forall x, x ∈ ({[2; 5; 9]} : gset Z) -> x < 6 -> x ∈ S') /\
    (({[2; 5; 9]} : gset Z) = {[2; 5; 9]} -> 6 = 6 -> S' = {[2; 5]}).
Proof.
  assert (Hn : is_line_count 6) by (unfold is_line_count, int_max; lia).
  exact (conj eq_refl (conj eq_refl (conj Hn
           (reconcile_postcondition {[2; 5; 9]} 6 (plain_editor {[2; 5; 9]} 6)
              eq_refl eq_refl Hn)))).
Defined.

(** C3. For every breakpoint set and line count, removing the greatest
    breakpoint while it is not below the line count, as [updateSidebar]
    does, leaves exactly the set that one pass keeping the breakpoints
    below the line count leaves, whatever bound above the number of
    breakpoints is put on the iterations. *)
Theorem reconcile_loop_refines_filter (S : gset Z) (N : Z) (ed : CodeEditor) :
  m_breakpoints ed = S ->
  blockCount (document ed) = N ->
  is_line_count N ->
  updateSidebar ed = Ok (tt, set_breakpoints (reconcile_filter N S) ed) /\
  forall fuel, (size S < fuel)%nat ->
    updateSidebar_loop fuel ed = Ok (tt, set_breakpoints (reconcile_filter N S) ed).
Proof.
  intros <- <- Hn. split; [by apply updateSidebar_filter|].
  intros fuel Hfuel. by apply updateSidebar_loop_filter.
Qed.

Lemma reconcile_loop_refines_filter_witness :
  m_breakpoints (plain_editor {[1; 4; 7; 8]} 5) = {[1; 4; 7; 8]} /\
  blockCount (document (plain_editor {[1; 4; 7; 8]} 5)) = 5 /\
  is_line_count 5 /\
  updateSidebar (plain_editor {[1; 4; 7; 8]} 5)
    = Ok (tt, set_breakpoints (reconcile_filter 5 {[1; 4; 7; 8]})
                (plain_editor {[1; 4; 7; 8]} 5)) /\
  forall fuel, (size ({[1; 4; 7; 8]}%Z : gset Z) < fuel)%nat ->
    updateSidebar_loop fuel (plain_editor {[1; 4; 7; 8]} 5)
      = Ok (tt, set_breakpoints (reconcile_filter 5 {[1; 4; 7; 8]})
                  (plain_editor {[1; 4; 7; 8]} 5)).
Proof.
  assert (Hn : is_line_count 5) by (unfold is_line_count, int_max; lia).
  exact (conj eq_refl (conj eq_refl (conj Hn
           (reconcile_loop_refines_filter {[1; 4; 7; 8]} 5
              (plain_editor {[1; 4; 7; 8]} 5) eq_refl eq_refl Hn)))).
Defined.

(** C6. When every breakpoint is already below the line count, the loop of
    [updateSidebar] leaves the editor, and so the set, as it was. *)
Theorem reconcile_noop (S : gset Z) (N : Z) (ed : CodeEditor) :
  m_breakpoints ed = S ->
  blockCount (document ed) = N ->
  is_line_count N ->
  (forall x, x ∈ S -> x < N) ->
  updateSidebar ed = Ok (tt, ed).
Proof.
  intros <- <- Hn Hall. rewrite updateSidebar_filter by done.
  by rewrite reconcile_filter_all, set_breakpoints_same.
Qed.

Lemma reconcile_noop_witness :
  (forall x, x ∈ ({[2; 5]} : gset Z) -> x < 6) /\
  is_line_count 6 /\
  updateSidebar (plain_editor {[2; 5]} 6) = Ok (tt, plain_editor {[2; 5]} 6).
Proof.
  assert (Hn : is_line_count 6) by (unfold is_line_count, int_max; lia).
  assert (Hall : forall x, x ∈ ({[2; 5]} : gset Z) -> x < 6)
    by (intros x; rewrite elem_of_union, !elem_of_singleton; lia).
  exact (conj Hall (conj Hn
           (reconcile_noop {[2; 5]} 6 (plain_editor {[2; 5]} 6)
              eq_refl eq_refl Hn Hall))).
Defined.

(** ** Setting and unsetting *)

(** C4. For every line index [x] and every breakpoint set, two [toggle x]
    in a row leave the editor, and so the set, exactly as it was, and so do
    two clicks of [breakpointClick] at the same place in the toggling mode
    for the set; from the empty set [toggle 3] gives [{3}] and a second
    [toggle 3] gives the empty set again. *)
Theorem toggle_involution (x : Z) (ed : CodeEditor) :
  (toggle x;; toggle x) ed = Ok (tt, ed) /\
  (forall pos_y ed1, breakpointClick pos_y 0 ed = Ok (tt, ed1) ->
     exists ed2,
       breakpointClick pos_y 0 ed1 = Ok (tt, ed2) /\
       m_breakpoints ed2 = m_breakpoints ed) /\
  toggle 3 (set_breakpoints ∅ ed) = Ok (tt, set_breakpoints {[3]} ed) /\
  toggle 3 (set_breakpoints {[3]} ed) = Ok (tt, set_breakpoints ∅ ed).
Proof.
  split; [|split; [|split]].
  - unfold mbind, M_bind. rewrite toggle_eq, toggle_eq.
    rewrite m_breakpoints_set, set_breakpoints_twice.
    by rewrite toggled_twice, set_breakpoints_same.
  - intros pos_y ed1 Hrun.
    destruct (clicked_block pos_y ed) as [[b ed0]| |] eqn:Hb.
    2,3: unfold breakpointClick, mbind, M_bind in Hrun; by rewrite Hb in Hrun.
    destruct (clicked_block_pure _ _ _ _ Hb) as [-> _].
    destruct b as [n|].
    + destruct (breakpointClick_on_block pos_y 0 n ed Hb)
        as (ed1' & Hrun1 & Hb1 & _ & Hs1).
      rewrite Hrun1 in Hrun. injection Hrun as <-.
      destruct (breakpointClick_on_block pos_y 0 n ed1' Hb1)
        as (ed2 & Hrun2 & _ & _ & Hs2).
      exists ed2. split; [done|]. simpl in Hs1, Hs2.
      by rewrite Hs2, Hs1, toggled_twice.
    + rewrite (breakpointClick_eq _ _ _ _ Hb) in Hrun. injection Hrun as <-.
      exists ed. by rewrite (breakpointClick_eq _ _ _ _ Hb).
  - rewrite toggle_eq, m_breakpoints_set, set_breakpoints_twice.
    unfold toggled. rewrite decide_False by apply not_elem_of_empty.
    by rewrite (right_id_L ∅ (∪)).
  - rewrite toggle_eq, m_breakpoints_set, set_breakpoints_twice.
    unfold toggled. rewrite decide_True by by apply elem_of_singleton.
    by rewrite difference_diag_L.
Qed.

Lemma toggle_involution_witness :
  breakpointClick 47 0 (plain_editor {[5]} 6)
    = Ok (tt, repaint_of (plain_editor {[2; 5]} 6)) /\
  exists ed2,
    breakpointClick 47 0 (repaint_of (plain_editor {[2; 5]} 6)) = Ok (tt, ed2) /\
    m_breakpoints ed2 = {[5]}.
Proof.
  assert (Hrun : breakpointClick 47 0 (plain_editor {[5]} 6)
                 = Ok (tt, repaint_of (plain_editor {[2; 5]} 6)))
    by (vm_compute; reflexivity).
  exact (conj Hrun
           (proj1 (proj2 (toggle_involution 0 (plain_editor {[5]} 6))) 47 _ Hrun)).
Defined.

(** C5. For every line index [x] and every prior set, [x] is a breakpoint
    after [forceAdd x] and is none after [forceRemove x]; either operation
    applied twice gives what it gives applied once. So it is for the
    clicks: after [breakpointClick] with [forceState] 1 on line [n] the line
    is a breakpoint, after one with [forceState] 2 it is none, and a second
    click of the same kind at the same place leaves the set as the first
    left it. *)
Theorem force_semantics (x : Z) (ed : CodeEditor) :
  (exists ed1, forceAdd x ed = Ok (tt, ed1) /\ contains x ed1 = Ok (true, ed1)) /\
  (exists ed2, forceRemove x ed = Ok (tt, ed2) /\ contains x ed2 = Ok (false, ed2)) /\
  (forceAdd x;; forceAdd x) ed = forceAdd x ed /\
  (forceRemove x;; forceRemove x) ed = forceRemove x ed /\
  (forall pos_y n, clicked_block pos_y ed = Ok (Block n, ed) ->
     (exists ed1,
        breakpointClick pos_y 1 ed = Ok (tt, ed1) /\
        contains n ed1 = Ok (true, ed1) /\
        exists ed1',
          breakpointClick pos_y 1 ed1 = Ok (tt, ed1') /\
          m_breakpoints ed1' = m_breakpoints ed1) /\
     (exists ed2,
        breakpointClick pos_y 2 ed = Ok (tt, ed2) /\
        contains n ed2 = Ok (false, ed2) /\
        exists ed2',
          breakpointClick pos_y 2 ed2 = Ok (tt, ed2') /\
          m_breakpoints ed2' = m_breakpoints ed2)).
Proof.
  split; [|split; [|split; [|split]]].
  - eexists. split; [apply forceAdd_eq|].
    rewrite contains_eq, m_breakpoints_set.
    rewrite bool_decide_eq_true_2; [done|].
    apply elem_of_union_l. by apply elem_of_singleton.
  - eexists. split; [apply forceRemove_eq|].
    rewrite contains_eq, m_breakpoints_set.
    rewrite bool_decide_eq_false_2; [done|].
    rewrite elem_of_difference, elem_of_singleton. tauto.
  - unfold mbind, M_bind. rewrite forceAdd_eq, forceAdd_eq.
    rewrite m_breakpoints_set, set_breakpoints_twice. do 3 f_equal.
    apply set_eq. intros y. rewrite !elem_of_union. tauto.
  - unfold mbind, M_bind. rewrite forceRemove_eq, forceRemove_eq.
    rewrite m_breakpoints_set, set_breakpoints_twice. do 3 f_equal.
    apply set_eq. intros y. rewrite !elem_of_difference. tauto.
  - intros pos_y n Hb. split.
    + destruct (breakpointClick_on_block pos_y 1 n ed Hb)
        as (ed1 & Hrun1 & Hb1 & _ & Hs1).
      exists ed1. split; [done|]. simpl in Hs1. split.
      * rewrite contains_eq, Hs1. rewrite bool_decide_eq_true_2; [done|].
        apply elem_of_union_l. by apply elem_of_singleton.
      * destruct (breakpointClick_on_block pos_y 1 n ed1 Hb1)
          as (ed1' & Hrun1' & _ & _ & Hs1').
        exists ed1'. split; [done|]. simpl in Hs1'. rewrite Hs1', Hs1.
        apply set_eq. intros y. rewrite !elem_of_union. tauto.
    + destruct (breakpointClick_on_block pos_y 2 n ed Hb)
        as (ed2 & Hrun2 & Hb2 & _ & Hs2).
      exists ed2. split; [done|]. simpl in Hs2. split.
      * rewrite contains_eq, Hs2. rewrite bool_decide_eq_false_2; [done|].
        rewrite elem_of_difference, elem_of_singleton. tauto.
      * destruct (breakpointClick_on_block pos_y 2 n ed2 Hb2)
          as (ed2' & Hrun2' & _ & _ & Hs2').
        exists ed2'. split; [done|]. simpl in Hs2'. rewrite Hs2', Hs2.
        apply set_eq. intros y. rewrite !elem_of_difference. tauto.
Qed.

Lemma force_semantics_witness :
  clicked_block 47 (plain_editor {[5]} 6) = Ok (Block 2, plain_editor {[5]} 6) /\
  exists ed1,
    breakpointClick 47 1 (plain_editor {[5]} 6) = Ok (tt, ed1) /\
    contains 2 ed1 = Ok (true, ed1) /\
    exists ed1',
      breakpointClick 47 1 ed1 = Ok (tt, ed1') /\
      m_breakpoints ed1' = m_breakpoints ed1.
Proof.
  assert (Hb : clicked_block 47 (plain_editor {[5]} 6)
               = Ok (Block 2, plain_editor {[5]} 6))
    by (vm_compute; reflexivity).
  exact (conj Hb
           (proj1 (proj2 (proj2 (proj2 (proj2
              (force_semantics 0 (plain_editor {[5]} 6))))) 47 2 Hb))).
Defined.

(** ** The invariant *)

(** C7. Every breakpoint is a line index between 0 and the line count of
    the document minus one: this holds in every editor reached from one
    without breakpoints, in particular right after an edit and its
    [updateSidebar], and [toggle], [forceAdd], [forceRemove], [clear], the
    reconciliation and a click preserve it, when the callers hand line
    indices of the document to the operations that insert. *)
Theorem breakpoints_stay_valid :
  (forall o ed ed',
     valid_breakpoints ed -> precondition ed o -> run o ed = Ok (tt, ed') ->
     valid_breakpoints ed') /\
  (forall ed, reachable ed -> valid_breakpoints ed) /\
  (forall d fv off ed ed',
     reachable ed -> is_line_count (blockCount d) ->
     updateSidebar (set_document d fv off ed) = Ok (tt, ed') ->
     forall x, x ∈ m_breakpoints ed' -> 0 <= x <= blockCount d - 1).
Proof.
  split; [|split].
  - intros o ed ed'. apply run_preserves_valid.
  - apply reachable_valid.
  - intros d fv off ed ed' Hreach Hd Hrun.
    assert (Hvalid : valid_breakpoints ed') .
    { apply (run_preserves_valid (OpEdit d fv off) ed ed');
        [by apply reachable_valid|done|done]. }
    rewrite updateSidebar_filter in Hrun by done. injection Hrun as <-.
    exact Hvalid.
Qed.

Lemma breakpoints_stay_valid_witness :
  valid_breakpoints (plain_editor {[2; 5; 9]} 10) /\
  precondition (plain_editor {[2; 5; 9]} 10) (OpEdit (plain_document 6) 0 (qreal_of_int 0)) /\
  run (OpEdit (plain_document 6) 0 (qreal_of_int 0)) (plain_editor {[2; 5; 9]} 10)
    = Ok (tt, plain_editor {[2; 5]} 6) /\
  valid_breakpoints (plain_editor {[2; 5]} 6).
Proof.
  assert (Hv : valid_breakpoints (plain_editor {[2; 5; 9]} 10)).
  { intros x. simpl. rewrite !elem_of_union, !elem_of_singleton. lia. }
  assert (Hp : precondition (plain_editor {[2; 5; 9]} 10)
                 (OpEdit (plain_document 6) 0 (qreal_of_int 0))).
  { simpl. unfold is_line_count, int_max. lia. }
  assert (Hr : run (OpEdit (plain_document 6) 0 (qreal_of_int 0))
                 (plain_editor {[2; 5; 9]} 10) = Ok (tt, plain_editor {[2; 5]} 6)).
  { vm_compute. reflexivity. }
  exact (conj Hv (conj Hp (conj Hr
           (proj1 breakpoints_stay_valid _ _ _ Hv Hp Hr)))).
Defined.

(** ** Painting *)

(** C9. Painting the breakpoint area, which looks every visible line up
    in the set, never changes the set: when [breakpointAreaPaintEvent]
    returns, the breakpoints are those before the paint, and it does not
    run out of iterations; [contains] returns the membership and the
    editor it was given. On six lines of height 20 with breakpoints
    [{2, 5, 9}] the paint of the rows 0 to 100 draws the lines 2 and 5, at the
    rows 40 and 100. *)
Theorem paint_keeps_breakpoints (rect_top rect_bottom x : Z) (ed : CodeEditor) :
  match breakpointAreaPaintEvent rect_top rect_bottom ed with
  | Ok (_, ed') => m_breakpoints ed' = m_breakpoints ed
  | Undefined => True
  | OutOfFuel => False
  end /\
  contains x ed = Ok (bool_decide (x ∈ m_breakpoints ed), ed) /\
  exists ed',
    breakpointAreaPaintEvent 0 100 (plain_editor {[2; 5; 9]} 6) = Ok (tt, ed') /\
    m_breakpoints ed' = {[2; 5; 9]} /\ pixmaps ed' = [100; 40].
Proof.
  split; [|split].
  - pose proof (breakpointAreaPaintEvent_keeps rect_top rect_bottom ed) as H.
    destruct (breakpointAreaPaintEvent _ _ _) as [[u ed']| |]; simpl in H;
      [apply H|done|done].
  - apply contains_eq.
  - eexists. split; [vm_compute; reflexivity|]. split; reflexivity.
Qed.

(** ** Clicks outside the document *)

(** C10. When the block a click lands on is invalid, which from a valid
    first visible line [fv] and a count [index] is when [fv + index] is
    not below the line count, [breakpointClick] leaves the editor as it was
    in every mode: no breakpoint changes and nothing is repainted. A click
    that changes the breakpoints lands on a line of the document. *)
Theorem click_outside_document (pos_y forceState : Z) (ed : CodeEditor) :
  (forall b, clicked_block pos_y ed = Ok (b, ed) -> isValid b = false ->
     breakpointClick pos_y forceState ed = Ok (tt, ed)) /\
  (forall fv index, 0 <= fv -> 0 <= index ->
     blockCount (document ed) <= fv + index ->
     walk (document ed) index (block_at (document ed) fv) = InvalidBlock) /\
  (forall ed', breakpointClick pos_y forceState ed = Ok (tt, ed') ->
     m_breakpoints ed' ≠ m_breakpoints ed ->
     exists n, 0 <= n < blockCount (document ed) /\
       clicked_block pos_y ed = Ok (Block n, ed)).
Proof.
  split; [|split].
  - intros b Hb Hinvalid. rewrite (breakpointClick_eq _ _ _ _ Hb).
    by rewrite Hinvalid.
  - intros fv index Hfv Hindex Hbeyond. rewrite walk_block_at by done.
    apply block_at_invalid. lia.
  - intros ed' Hrun Hchanged.
    destruct (breakpointClick_breakpoints _ _ _ _ Hrun) as [_ [Hsame|Hn]];
      [done|].
    destruct Hn as (n & Hn & Hb & _). by exists n.
Qed.

Lemma click_outside_document_witness :
  clicked_block 70 (plain_editor {[1]} 3) = Ok (InvalidBlock, plain_editor {[1]} 3) /\
  isValid InvalidBlock = false /\
  breakpointClick 70 0 (plain_editor {[1]} 3) = Ok (tt, plain_editor {[1]} 3).
Proof.
  assert (Hb : clicked_block 70 (plain_editor {[1]} 3)
               = Ok (InvalidBlock, plain_editor {[1]} 3))
    by (vm_compute; reflexivity).
  exact (conj Hb (conj eq_refl
           (proj1 (click_outside_document 70 0 (plain_editor {[1]} 3))
              InvalidBlock Hb eq_refl))).
Defined.

(** ** From a pixel to a line *)

(** C2. For a click at the [int] row [pixelY], a content offset and a
    height of the first visible line that are integers, [breakpointClick]
    computes the count of lines as the integer quotient of the adjusted
    offset by the line height, where the offset is taken off [pixelY] when
    the first visible line is the first line of the document and added
    otherwise, and advances from the first visible line by that count; a
    count that is not positive stays on the first visible line. With first
    visible line 0, height 20, offset 5 and [pixelY] 47 the line is 2; with
    first visible line 10, height 15, offset 4 and [pixelY] 34 it is 12. *)
Theorem pixel_to_line (ed : CodeEditor) (pixelY viewportTopOffset lineHeight : Z) :
  0 <= firstVisible ed < blockCount (document ed) ->
  is_int pixelY -> Z.abs viewportTopOffset < 2 ^ 51 -> 0 < lineHeight < 2 ^ 53 ->
  contentOffset_y ed = qreal_of_int viewportTopOffset ->
  blockHeight (document ed) (firstVisible ed) = qreal_of_int lineHeight ->
  is_int (adjusted_offset (firstVisible ed) pixelY viewportTopOffset ÷ lineHeight) ->
  click_index (firstVisible ed =? 0) pixelY (contentOffset_y ed)
      (blockHeight (document ed) (firstVisible ed))
    = Ok (adjusted_offset (firstVisible ed) pixelY viewportTopOffset ÷ lineHeight) /\
  (0 <= adjusted_offset (firstVisible ed) pixelY viewportTopOffset ÷ lineHeight ->
   clicked_block pixelY ed =
     Ok (block_at (document ed)
           (lineIndexFromOffset (firstVisible ed) pixelY lineHeight viewportTopOffset),
         ed)) /\
  (adjusted_offset (firstVisible ed) pixelY viewportTopOffset ÷ lineHeight <= 0 ->
   clicked_block pixelY ed = Ok (Block (firstVisible ed), ed)) /\
  clicked_block 47 (scrolled_editor 30 0 20 5)
    = Ok (Block 2, scrolled_editor 30 0 20 5) /\
  lineIndexFromOffset 0 47 20 5 = 2 /\
  clicked_block 34 (scrolled_editor 30 10 15 4)
    = Ok (Block 12, scrolled_editor 30 10 15 4) /\
  lineIndexFromOffset 10 34 15 4 = 12.
Proof.
  intros Hfv Hy Ho Hh Hoff Hheight Hcount.
  pose proof (clicked_block_int ed pixelY viewportTopOffset lineHeight
                Hfv Hy Ho Hh Hoff Hheight) as Hblock.
  rewrite to_int_is_int in Hblock by done.
  split; [|split; [|split]].
  - rewrite Hoff, Hheight, click_index_int by done.
    unfold adjusted_offset in *.
    destruct (firstVisible ed =? 0); by rewrite to_int_is_int.
  - intros Hpos. rewrite Hblock. do 2 f_equal.
    rewrite <- (block_at_valid (document ed) (firstVisible ed)) by done.
    by rewrite walk_block_at by lia.
  - intros Hneg. rewrite Hblock. by rewrite walk_nonpositive.
  - repeat split; vm_compute; reflexivity.
Qed.

Lemma pixel_to_line_witness :
  0 <= firstVisible (scrolled_editor 30 0 20 5)
    < blockCount (document (scrolled_editor 30 0 20 5)) /\
  is_int 47 /\ Z.abs 5 < 2 ^ 51 /\ 0 < 20 < 2 ^ 53 /\
  is_int (adjusted_offset 0 47 5 ÷ 20) /\
  click_index true 47 (qreal_of_int 5) (qreal_of_int 20) = Ok 2.
Proof.
  assert (Hfv : 0 <= firstVisible (scrolled_editor 30 0 20 5)
                  < blockCount (document (scrolled_editor 30 0 20 5)))
    by (simpl; lia).
  assert (Hy : is_int 47) by (unfold is_int, int_min, int_max; lia).
  assert (Ho : Z.abs 5 < 2 ^ 51) by (simpl; lia).
  assert (Hh : 0 < 20 < 2 ^ 53) by lia.
  assert (Hc : is_int (adjusted_offset 0 47 5 ÷ 20))
    by (change (adjusted_offset 0 47 5 ÷ 20) with 2;
        unfold is_int, int_min, int_max; lia).
  exact (conj Hfv (conj Hy (conj Ho (conj Hh (conj Hc
           (proj1 (pixel_to_line (scrolled_editor 30 0 20 5) 47 5 20
                     Hfv Hy Ho Hh eq_refl eq_refl Hc))))))).
Defined.

(** ** Totality *)



(** * Further properties of the editor *)

(** ** The iterations of the reconciliation *)

(** The breakpoints the loop of [updateSidebar] has to erase. *)
Lemma elem_of_beyond (n x : Z) (s : gset Z) :
  x ∈ filter (fun y => n <= y) s <-> n <= x /\ x ∈ s.
Proof. by rewrite elem_of_filter. Qed.

Lemma beyond_drop (n m : Z) (s : gset Z) :
  n <= m -> m ∈ s ->
  to_erase n s = S (to_erase n (s ∖ {[m]})).
Proof.
  intros Hle Hin. unfold to_erase.
  assert (filter (fun y => n <= y) s
          = {[m]} ∪ filter (fun y => n <= y) (s ∖ {[m]})) as ->.
  { apply set_eq. intros x.
    rewrite elem_of_union, !elem_of_beyond, elem_of_difference, elem_of_singleton.
    destruct (decide (x = m)) as [->|]; tauto. }
  rewrite size_union, size_singleton; [done|].
  apply disjoint_singleton_l.
  rewrite elem_of_beyond, elem_of_difference, elem_of_singleton. tauto.
Qed.

Lemma beyond_none (n : Z) (s : gset Z) :
  (forall x, x ∈ s -> x < n) -> to_erase n s = 0%nat.
Proof.
  intros Hall. unfold to_erase. apply size_empty_iff. intros x.
  rewrite elem_of_beyond. split; [|by intros ?%not_elem_of_empty].
  intros [Hle Hin]. specialize (Hall x Hin). lia.
Qed.

(** The loop returns exactly when its bound is above the number of
    breakpoints to erase. *)
Lemma updateSidebar_loop_iterations (fuel : nat) (ed : CodeEditor) :
  is_line_count (blockCount (document ed)) ->
  updateSidebar_loop fuel ed =
    if decide (to_erase (blockCount (document ed)) (m_breakpoints ed) < fuel)%nat
    then Ok (tt, set_breakpoints
                   (reconcile_filter (blockCount (document ed)) (m_breakpoints ed))
                   ed)
    else OutOfFuel.
Proof.
  revert ed. induction fuel as [|fuel IH]; intros ed Hn.
  - rewrite decide_False by lia. reflexivity.
  - simpl. unfold_M. unfold StdSet.empty.
    destruct (bool_decide_reflect (m_breakpoints ed = ∅)) as [Hempty|Hne].
    + rewrite decide_True.
      * rewrite reconcile_filter_all, set_breakpoints_same; [reflexivity|].
        intros x. rewrite Hempty. by intros ?%not_elem_of_empty.
      * rewrite beyond_none; [lia|].
        intros x. rewrite Hempty. by intros ?%not_elem_of_empty.
    + unfold StdSet.rbegin, StdSet.prev_end.
      destruct (greatest_nonempty _ Hne) as [m Hm]. rewrite Hm.
      destruct (greatest_Some _ _ Hm) as [Hin Hmax].
      rewrite (int_sub_line_count _ Hn).
      destruct (Z.gtb_spec m (blockCount (document ed) - 1)) as [Hgt|Hle].
      * cbn beta. rewrite Hm. simpl.
        destruct (decide (m ∈ m_breakpoints ed)) as [_|[]]; [|done].
        rewrite IH by done. simpl.
        rewrite (beyond_drop (blockCount (document ed)) m (m_breakpoints ed))
          by (done || lia).
        rewrite reconcile_filter_drop by lia.
        destruct (decide (_ < fuel)%nat), (decide (S _ < S fuel)%nat);
          (reflexivity || lia).
      * rewrite decide_True.
        -- rewrite reconcile_filter_all, set_breakpoints_same; [reflexivity|].
           intros x Hx. specialize (Hmax x Hx). lia.
        -- rewrite beyond_none; [lia|].
           intros x Hx. specialize (Hmax x Hx). lia.
Qed.

Lemma reconcile_filter_twice (n n' : Z) (s : gset Z) :
  reconcile_filter n' (reconcile_filter n s) = reconcile_filter (Z.min n n') s.
Proof.
  apply set_eq. intros x. rewrite !elem_of_reconcile_filter.
  split; [intros (? & ? & ?)|intros [? ?]]; repeat split; (done || lia).
Qed.

(** ** Clicks *)

(** No [qreal] divided by zero converts to an [int]. *)
Lemma int_of_qreal_div_zero (x : qreal) (s : bool) :
  int_of_qreal (qreal_div x (S754_zero s)) = Undefined.
Proof. by destruct x as [?|?| |? ? ?]. Qed.

Lemma click_index_zero_height (atFirstLine : bool) (pos_y : Z) (offset_y : qreal)
    (s : bool) :
  click_index atFirstLine pos_y offset_y (S754_zero s) = Undefined.
Proof. unfold click_index. destruct atFirstLine; apply int_of_qreal_div_zero. Qed.

Lemma set_unset_breakpoint_toggle (forceState x : Z) (ed : CodeEditor) :
  forceState ≠ 1 -> forceState ≠ 2 ->
  set_unset_breakpoint forceState x ed = toggle x ed.
Proof.
  intros H1 H2. rewrite set_unset_breakpoint_eq.
  destruct (Z.eqb_spec forceState 1); [done|].
  by destruct (Z.eqb_spec forceState 2).
Qed.

(** What [set_unset_breakpoint] leaves, as a set. *)
Lemma set_unset_breakpoint_set (forceState x : Z) (ed : CodeEditor) :
  set_unset_breakpoint forceState x ed =
    Ok (tt, set_breakpoints
              (if forceState =? 1 then {[x]} ∪ m_breakpoints ed
               else if forceState =? 2 then m_breakpoints ed ∖ {[x]}
               else toggled x (m_breakpoints ed)) ed).
Proof.
  rewrite set_unset_breakpoint_eq, forceAdd_eq, forceRemove_eq, toggle_eq.
  destruct (forceState =? 1); [done|]. by destruct (forceState =? 2).
Qed.

Lemma elem_of_toggled (x y : Z) (s : gset Z) :
  y ∈ toggled x s <-> (y ≠ x /\ y ∈ s) \/ (y = x /\ x ∉ s).
Proof.
  unfold toggled. destruct (decide (x ∈ s)) as [Hin|Hnin].
  - rewrite elem_of_difference, elem_of_singleton.
    split; [tauto|]. intros [?|[-> ?]]; tauto.
  - rewrite elem_of_union, elem_of_singleton.
    split; [|tauto]. intros [->|?]; [tauto|].
    left. split; [|done]. by intros ->.
Qed.

(** The membership of [y] after [set_unset_breakpoint forceState x]. *)
Lemma elem_of_set_unset (forceState x y : Z) (s : gset Z) :
  y ∈ (if forceState =? 1 then {[x]} ∪ s
       else if forceState =? 2 then s ∖ {[x]}
       else toggled x s) <->
  (y ≠ x /\ y ∈ s) \/
  (y = x /\ (forceState = 1 \/ (forceState ≠ 1 /\ forceState ≠ 2 /\ x ∉ s))).
Proof.
  destruct (Z.eqb_spec forceState 1) as [->|H1];
    [|destruct (Z.eqb_spec forceState 2) as [->|H2]].
  - rewrite elem_of_union, elem_of_singleton.
    destruct (decide (y = x)); tauto.
  - rewrite elem_of_difference, elem_of_singleton.
    split; [tauto|]. intros [?|[_ [?|(_ & ? & _)]]]; [tauto|lia|lia].
  - rewrite elem_of_toggled. tauto.
Qed.

Lemma set_unset_twice_set (f g x y : Z) (ed : CodeEditor) :
  (set_unset_breakpoint f x;; set_unset_breakpoint g y) ed =
    Ok (tt, set_breakpoints
              (if g =? 1 then {[y]} ∪ (if f =? 1 then {[x]} ∪ m_breakpoints ed
                                       else if f =? 2 then m_breakpoints ed ∖ {[x]}
                                       else toggled x (m_breakpoints ed))
               else if g =? 2
               then (if f =? 1 then {[x]} ∪ m_breakpoints ed
                     else if f =? 2 then m_breakpoints ed ∖ {[x]}
                     else toggled x (m_breakpoints ed)) ∖ {[y]}
               else toggled y (if f =? 1 then {[x]} ∪ m_breakpoints ed
                               else if f =? 2 then m_breakpoints ed ∖ {[x]}
                               else toggled x (m_breakpoints ed))) ed).
Proof.
  unfold mbind, M_bind. rewrite set_unset_breakpoint_set.
  rewrite set_unset_breakpoint_set.
  by rewrite m_breakpoints_set, set_breakpoints_twice.
Qed.

(** The integer quotient of a number of the [k]-th band of height [h]. *)
Lemma quot_band (a h k : Z) :
  0 < h -> 0 <= k -> k * h <= a < (k + 1) * h -> a ÷ h = k.
Proof.
  intros Hh Hk Ha. rewrite Z.quot_div_nonneg by nia.
  symmetry. apply (Z.div_unique_pos a h k (a - h * k)); lia.
Qed.

(** ** The width of the line number area *)

Lemma res_bind_Ok {A B} (r : res A) (f : A -> res B) (b : B) :
  res_bind r f = Ok b -> exists a, r = Ok a /\ f a = Ok b.
Proof. destruct r as [a| |]; simpl; [|discriminate..]. intros H. by exists a. Qed.

Lemma to_int_Ok (z v : Z) : to_int z = Ok v -> v = z /\ is_int z.
Proof.
  unfold to_int, in_int, is_int.
  destruct (Z.leb_spec int_min z), (Z.leb_spec z int_max); simpl;
    [|discriminate..].
  intros [= <-]. lia.
Qed.

Lemma log2_quot_10 (max : Z) : 10 <= max -> Z.log2 (max ÷ 10) < Z.log2 max.
Proof.
  intros Hmax. rewrite Z.quot_div_nonneg by lia.
  assert (1 <= max / 10) by (apply Z.div_le_lower_bound; lia).
  assert (2 * (max / 10) <= max) as Hle.
  { pose proof (Z.mul_div_le max 10). lia. }
  apply Z.log2_le_mono in Hle. rewrite Z.log2_double in Hle by lia. lia.
Qed.

(** The loop adds to [digits] the number of times [max] can be divided by
    10 before it is below 10. *)
Lemma digits_loop_eq (fuel : nat) :
  forall max digits,
    1 <= max -> int_min <= digits -> digits + Z.log2 max <= int_max ->
    (Z.to_nat (Z.log2 max) < fuel)%nat ->
    exists k,
      digits_loop fuel max digits = Ok (digits + k) /\
      0 <= k <= Z.log2 max /\ 10 ^ k <= max < 10 ^ (k + 1).
Proof.
  induction fuel as [|fuel IH]; intros max digits Hmax Hlo Hhi Hfuel; [lia|].
  pose proof (Z.log2_nonneg max) as Hlog. simpl.
  destruct (Z.geb_spec max 10) as [Hge|Hlt].
  - pose proof (log2_quot_10 max Hge) as Hq.
    pose proof (Z.log2_nonneg (max ÷ 10)) as Hlogq.
    unfold int_add. rewrite to_int_is_int by (unfold is_int; lia). simpl.
    assert (1 <= max ÷ 10) as Hq1.
    { rewrite Z.quot_div_nonneg by lia. apply Z.div_le_lower_bound; lia. }
    destruct (IH (max ÷ 10) (digits + 1)) as (k & -> & Hk & Hpow);
      [done|lia|lia|lia|].
    exists (k + 1). split; [f_equal; lia|]. split; [lia|].
    rewrite Z.quot_div_nonneg in Hpow by lia.
    pose proof (Z.mul_div_le max 10 ltac:(lia)).
    pose proof (Z.mul_succ_div_gt max 10 ltac:(lia)).
    rewrite !Z.pow_add_r, Z.pow_1_r in * by lia. lia.
  - exists 0. rewrite Z.add_0_r. split; [done|]. split; [lia|]. simpl. lia.
Qed.

Lemma is_digits_le (d d' n n' : Z) :
  is_digits d n -> is_digits d' n' -> n <= n' -> d <= d'.
Proof.
  intros [Hd [Hlo Hhi]] [Hd' [Hlo' Hhi']] Hle.
  destruct (Z_le_gt_dec d d') as [|Hgt]; [done|].
  assert (10 ^ d' <= 10 ^ (d - 1)) by (apply Z.pow_le_mono_r; lia). lia.
Qed.

Lemma lineNumberAreaWidth_eq (charWidth blockCount : Z) :
  is_int blockCount ->
  exists d,
    is_digits d (Z.max 1 blockCount) /\ d <= 10 /\
    lineNumberAreaWidth charWidth blockCount =
      res_bind (int_mul charWidth d) (fun w => int_add 6 w).
Proof.
  intros Hn. unfold lineNumberAreaWidth.
  assert (1 <= Z.max 1 blockCount < 2 ^ 31) as Hmax
    by (unfold is_int, int_min, int_max in Hn; lia).
  assert (Z.log2 (Z.max 1 blockCount) < 31) as Hlog
    by (apply Z.log2_lt_pow2; lia).
  pose proof (Z.log2_nonneg (Z.max 1 blockCount)) as Hlog0.
  destruct (digits_loop_eq (S (Z.to_nat (Z.log2 (Z.max 1 blockCount))))
              (Z.max 1 blockCount) 1) as (k & -> & Hk & Hpow);
    [lia|unfold int_min; lia|unfold int_max; lia|lia|].
  exists (1 + k). split; [|split; [|done]].
  - split; [lia|]. replace (1 + k - 1) with k by lia.
    by replace (1 + k) with (k + 1) by lia.
  - destruct (Z_le_gt_dec (1 + k) 10) as [|Hgt]; [done|].
    assert (10 ^ 10 <= 10 ^ k) by (apply Z.pow_le_mono_r; lia). lia.
Qed.

(** ** The font *)

Lemma eventFilter_size (event : QEvent) (keyboardModifiers : Z) (st : FontState) :
  6 <= m_font_pointSize st <= 30 ->
  6 <= m_font_pointSize (snd (eventFilter event keyboardModifiers st)) <= 30 /\
  Z.abs (m_font_pointSize (snd (eventFilter event keyboardModifiers st))
         - m_font_pointSize st) <= 1.
Proof.
  intros Hs. unfold eventFilter.
  destruct event as [dy|]; [|simpl; lia].
  destruct (keyboardModifiers =? ControlModifier); [|simpl; lia].
  destruct (m_fontTimer_active st); simpl; [lia|].
  destruct (dy >? 0).
  - destruct (Z.ltb_spec (m_font_pointSize st) 30); simpl; lia.
  - destruct (Z.gtb_spec (m_font_pointSize st) 6); simpl; lia.
Qed.

Lemma font_run_size (s : font_step) (st : FontState) :
  6 <= m_font_pointSize st <= 30 ->
  6 <= m_font_pointSize (font_run s st) <= 30 /\
  Z.abs (m_font_pointSize (font_run s st) - m_font_pointSize st) <= 1.
Proof.
  destruct s as [event mods|]; [apply eventFilter_size|]. simpl. lia.
Qed.

(** While the timer runs, the filter leaves the size and the timer as they
    are. *)
Lemma eventFilter_timer_active (event : QEvent) (keyboardModifiers : Z)
    (st : FontState) :
  m_fontTimer_active st = true ->
  m_font_pointSize (snd (eventFilter event keyboardModifiers st))
    = m_font_pointSize st /\
  m_fontTimer_active (snd (eventFilter event keyboardModifiers st)) = true.
Proof.
  intros Ht. unfold eventFilter. destruct event as [dy|]; [|done].
  destruct (keyboardModifiers =? ControlModifier); [|done].
  by rewrite Ht.
Qed.

Lemma eventFilter_handled_timer (event : QEvent) (keyboardModifiers : Z)
    (st : FontState) :
  fst (eventFilter event keyboardModifiers st) = true ->
  m_fontTimer_active (snd (eventFilter event keyboardModifiers st)) = true.
Proof.
  unfold eventFilter. destruct event as [dy|]; [|done].
  destruct (keyboardModifiers =? ControlModifier); [|done].
  intros _. by destruct (m_fontTimer_active st) eqn:Ht.
Qed.

Lemma eventFilter_not_handled (event : QEvent) (keyboardModifiers : Z)
    (st : FontState) :
  fst (eventFilter event keyboardModifiers st) = false ->
  snd (eventFilter event keyboardModifiers st) = st.
Proof.
  unfold eventFilter. destruct event as [dy|]; [|done].
  by destruct (keyboardModifiers =? ControlModifier).
Qed.

(** Events that follow one another while the timer runs leave the size. *)
Lemma filters_timer_active (events : list (QEvent * Z)) :
  forall st,
    m_fontTimer_active st = true ->
    m_font_pointSize
      (foldl (fun st e => snd (eventFilter e.1 e.2 st)) st events)
    = m_font_pointSize st.
Proof.
  induction events as [|[event mods] events IH]; intros st Ht; [done|].
  simpl. destruct (eventFilter_timer_active event mods st Ht) as [Hs Ht'].
  by rewrite IH.
Qed.

Lemma eventFilter_step (event : QEvent) (keyboardModifiers : Z) (st : FontState) :
  Z.abs (m_font_pointSize (snd (eventFilter event keyboardModifiers st))
         - m_font_pointSize st) <= 1.
Proof.
  unfold eventFilter. destruct event as [dy|]; [|simpl; lia].
  destruct (keyboardModifiers =? ControlModifier); [|simpl; lia].
  destruct (m_fontTimer_active st); simpl; [lia|].
  destruct (dy >? 0).
  - destruct (Z.ltb_spec (m_font_pointSize st) 30); simpl; lia.
  - destruct (Z.gtb_spec (m_font_pointSize st) 6); simpl; lia.
Qed.

Lemma filters_burst (events : list (QEvent * Z)) :
  forall st,
    Z.abs (m_font_pointSize
             (foldl (fun st e => snd (eventFilter e.1 e.2 st)) st events)
           - m_font_pointSize st) <= 1.
Proof.
  induction events as [|[event mods] events IH]; intros st; [simpl; lia|].
  simpl. destruct (fst (eventFilter event mods st)) eqn:Hhandled.
  - rewrite filters_timer_active by by apply eventFilter_handled_timer.
    apply eventFilter_step.
  - rewrite eventFilter_not_handled by done. apply IH.
Qed.

Lemma font_run_bounds (s : font_step) (st : FontState) :
  6 <= m_font_pointSize st <= 30 -> 6 <= widget_pointSize st <= 30 ->
  6 <= m_font_pointSize (font_run s st) <= 30 /\
  6 <= widget_pointSize (font_run s st) <= 30.
Proof.
  intros Hs Hw. split; [by apply font_run_size|].
  destruct s as [event mods|]; [|done]. simpl.
  pose proof (eventFilter_size event mods st Hs) as [Hs' _].
  unfold eventFilter in *. destruct event as [dy|]; [|done].
  destruct (mods =? ControlModifier); done.
Qed.

Lemma font_steps_bounds (steps : list font_step) :
  forall st,
    6 <= m_font_pointSize st <= 30 -> 6 <= widget_pointSize st <= 30 ->
    6 <= m_font_pointSize (foldl (fun st s => font_run s st) st steps) <= 30 /\
    6 <= widget_pointSize (foldl (fun st s => font_run s st) st steps) <= 30.
Proof.
  induction steps as [|s steps IH]; intros st Hs Hw; [done|].
  simpl. destruct (font_run_bounds s st Hs Hw). by apply IH.
Qed.

Lemma gutter_width_value (charWidth d : Z) :
  1 <= d <= 10 -> 0 <= charWidth <= 10 ^ 8 ->
  res_bind (int_mul charWidth d) (fun w => int_add 6 w) = Ok (6 + charWidth * d).
Proof.
  intros Hd Hcw. unfold int_mul, int_add.
  rewrite to_int_is_int by (unfold is_int, int_min, int_max; nia). simpl.
  apply to_int_is_int. unfold is_int, int_min, int_max. nia.
Qed.

(** ** The two painters *)

Lemma increasing_from_weaken (lo lo' : Z) (l : list Z) :
  lo' <= lo -> increasing_from lo l -> increasing_from lo' l.
Proof. destruct l as [|x l]; simpl; [done|]. intros Hle [Hx Hl]. split; [lia|done]. Qed.

Lemma increasing_from_Forall (lo : Z) (l : list Z) :
  increasing_from lo l -> Forall (fun x => lo <= x) l.
Proof.
  revert lo. induction l as [|x l IH]; intros lo; simpl; [constructor|].
  intros [Hx Hl]. constructor; [done|].
  apply IH. by apply (increasing_from_weaken (x + 1)); [lia|].
Qed.

Lemma increasing_from_lookup (lo : Z) (l : list Z) (i j : nat) (x y : Z) :
  increasing_from lo l -> l !! i = Some x -> l !! j = Some y -> (i < j)%nat ->
  x < y.
Proof.
  revert lo i j. induction l as [|z l IH]; intros lo i j; [done|].
  simpl. intros [Hz Hl] Hi Hj Hij.
  destruct j as [|j]; [lia|]. destruct i as [|i].
  - injection Hi as ->. simpl in Hj.
    apply increasing_from_Forall in Hl.
    rewrite Forall_forall in Hl.
    assert (x + 1 <= y) by (apply Hl; by eapply list_elem_of_lookup_2). lia.
  - simpl in Hi, Hj. apply (IH (z + 1) i j); [done..|lia].
Qed.


Lemma int_add_Ok (a b v : Z) : int_add a b = Ok v -> v = a + b.
Proof. by intros [-> _]%to_int_Ok. Qed.

(** What the painters visit: tops above the bottom of the rectangle, block
    numbers that grow, from the number of the block they start at and below
    the line count. *)
Lemma visited_spec (fuel : nat) (d : QTextDocument) (rect_top rect_bottom : Z) :
  forall (b : QTextBlock) (number top bottom : Z) (v : list (Z * Z)),
    wf_block d b -> (isValid b = true -> number = blockNumber b) ->
    visited fuel d rect_top rect_bottom b number top bottom = Ok v ->
    Forall (fun p => p.1 <= rect_bottom /\ p.2 < blockCount d) v /\
    increasing_from number (v.*2).
Proof.
  induction fuel as [|fuel IH]; intros b number top bottom v Hwf Hnum; [done|].
  simpl. destruct (isValid b) eqn:Hvalid; simpl;
    [|intros [= <-]; by split; [constructor|]].
  destruct (Z.leb_spec top rect_bottom) as [Htop|_];
    [|intros [= <-]; by split; [constructor|]].
  intros (h & _ & (bottom' & _ & (number' & Hn' & (rest & Hrest & [= <-])
    %res_bind_Ok)%res_bind_Ok)%res_bind_Ok)%res_bind_Ok.
  apply int_add_Ok in Hn' as ->.
  specialize (Hnum eq_refl).
  destruct b as [n|]; [|done]. simpl in Hnum, Hwf. subst number.
  assert (isValid (next d (Block n)) = true ->
          n + 1 = blockNumber (next d (Block n))) as Hnext.
  { simpl. intros Hv. destruct (decide (n + 1 < blockCount d)).
    - by rewrite block_at_valid by lia.
    - by rewrite block_at_invalid in Hv by lia. }
  destruct (IH (next d (Block n)) (n + 1) bottom bottom' rest
              (next_wf d (Block n)) Hnext Hrest) as [Hall Hinc].
  destruct (isVisible d (Block n) && (bottom >=? rect_top)); simpl.
  - split; [constructor; [simpl; lia|done]|]. split; [lia|done].
  - split; [done|]. by apply (increasing_from_weaken (n + 1)); [lia|].
Qed.

(** The painter of the breakpoints draws a pixmap at the top of every
    block it visits whose number is a breakpoint. *)
Lemma add_pixmaps_nil (ed : CodeEditor) : add_pixmaps [] ed = ed.
Proof. by destruct ed. Qed.

Lemma paint_loop_visited (fuel : nat) (rect_top rect_bottom : Z) :
  forall (b : QTextBlock) (number top bottom : Z) (ed : CodeEditor),
    paint_loop fuel rect_top rect_bottom b number top bottom ed =
    res_bind (visited fuel (document ed) rect_top rect_bottom b number top bottom)
      (fun v => Ok (tt, add_pixmaps
                          (rev (filter (fun p => p.2 ∈ m_breakpoints ed) v).*1)
                          ed)).
Proof.
  induction fuel as [|fuel IH]; intros b number top bottom ed; [done|].
  simpl. destruct (isValid b && (top <=? rect_bottom)).
  2:{ simpl. by rewrite add_pixmaps_nil. }
  unfold mbind at 1. unfold M_bind at 1. unfold gets at 1.
  unfold mbind at 1. unfold M_bind at 1.
  set (draw := if isVisible (document ed) b && (bottom >=? rect_top)
               then _ else _).
  assert (exists here,
            draw ed = Ok (tt, add_pixmaps
                                (rev (filter (fun p => p.2 ∈ m_breakpoints ed) here).*1)
                                ed) /\
            here = if isVisible (document ed) b && (bottom >=? rect_top)
                   then [(top, number)] else []) as (here & -> & Hhere).
  { unfold draw. destruct (isVisible (document ed) b && (bottom >=? rect_top)).
    - eexists. split; [|reflexivity]. unfold_M. simpl.
      rewrite find_end. destruct (decide (number ∈ m_breakpoints ed)).
      + rewrite bool_decide_eq_true_2 by done.
        by rewrite filter_cons_True by done.
      + rewrite bool_decide_eq_false_2 by done.
        rewrite filter_cons_False by done. by destruct ed.
    - eexists. split; [|reflexivity]. unfold mret, M_ret. by destruct ed. }
  unfold mbind, M_bind, lift. simpl document.
  destruct (int_of_qreal _) as [h| |]; [|done..]. simpl res_bind.
  destruct (int_add bottom h) as [bottom'| |] eqn:Eb; [|done..]. simpl res_bind.
  destruct (int_add number 1) as [number'| |]; [|done..]. simpl res_bind.
  rewrite IH. simpl document.
  destruct (visited fuel (document ed) rect_top rect_bottom
              (next (document ed) b) number' bottom bottom') as [rest| |];
    [|done..].
  simpl. rewrite <- Hhere.
  rewrite filter_app, fmap_app, rev_app_distr.
  unfold add_pixmaps. simpl. by rewrite app_assoc.
Qed.

(** The painter of the line numbers draws, at the top of every block it
    visits, the number of the block plus one. *)
Lemma lineNumber_loop_visited (fuel : nat) (d : QTextDocument)
    (rect_top rect_bottom : Z) :
  forall (b : QTextBlock) (number top bottom : Z),
    lineNumber_loop fuel d rect_top rect_bottom b number top bottom =
    res_bind (visited fuel d rect_top rect_bottom b number top bottom)
      (fun v => Ok ((fun p => (p.1, p.2 + 1)) <$> v)).
Proof.
  induction fuel as [|fuel IH]; intros b number top bottom; [done|].
  simpl. destruct (isValid b && (top <=? rect_bottom)); [|done].
  destruct (int_add number 1) as [number'| |] eqn:En.
  - apply int_add_Ok in En as ->.
    assert ((if isVisible d b && (bottom >=? rect_top)
             then res_bind (Ok (number + 1)) (fun n => Ok [(top, n)])
             else Ok []) =
            Ok ((fun p => (p.1, p.2 + 1)) <$>
                  (if isVisible d b && (bottom >=? rect_top)
                   then [(top, number)] else []))) as ->
      by by destruct (isVisible d b && (bottom >=? rect_top)).
    simpl res_bind.
    destruct (int_of_qreal _) as [h| |]; [|done..]. simpl res_bind.
    destruct (int_add bottom h) as [bottom'| |]; [|done..]. simpl res_bind.
    rewrite IH.
    destruct (visited fuel d rect_top rect_bottom (next d b) (number + 1)
                bottom bottom') as [rest| |]; [|done..].
    simpl. by rewrite fmap_app.
  - destruct (int_of_qreal _) as [h| |] eqn:Eh;
      [|by destruct (isVisible d b && (bottom >=? rect_top))
       |by apply int_of_qreal_not_OutOfFuel in Eh].
    simpl res_bind.
    destruct (int_add bottom h) as [bottom'| |] eqn:Eb;
      [|by destruct (isVisible d b && (bottom >=? rect_top))
       |by apply int_add_not_OutOfFuel in Eb].
    by destruct (isVisible d b && (bottom >=? rect_top)).
  - by apply int_add_not_OutOfFuel in En.
Qed.

Lemma filter_fmap_comp {A B : Type} (f : A -> B) (P : B -> Prop)
    `{!forall y, Decision (P y)} (l : list A) :
  filter P (f <$> l) = f <$> filter (fun x => P (f x)) l.
Proof.
  induction l as [|x l IH]; [done|]. rewrite fmap_cons.
  destruct (decide (P (f x))).
  - rewrite (filter_cons_True P) by done.
    rewrite (filter_cons_True (fun x => P (f x))) by done.
    rewrite fmap_cons. by rewrite IH.
  - rewrite (filter_cons_False P) by done.
    by rewrite (filter_cons_False (fun x => P (f x))) by done.
Qed.

Lemma visited_not_OutOfFuel (fuel : nat) (d : QTextDocument)
    (rect_top rect_bottom : Z) :
  forall (b : QTextBlock) (number top bottom : Z),
    wf_block d b -> (blocks_left d b < fuel)%nat ->
    visited fuel d rect_top rect_bottom b number top bottom ≠ OutOfFuel.
Proof.
  induction fuel as [|fuel IH]; intros b number top bottom Hwf Hfuel; [lia|].
  simpl. destruct (isValid b) eqn:Hvalid; simpl; [|done].
  destruct (top <=? rect_bottom); [|done].
  destruct (int_of_qreal _) as [h| |] eqn:Eh; simpl;
    [|done|by apply int_of_qreal_not_OutOfFuel in Eh].
  destruct (int_add bottom h) as [bottom'| |] eqn:Eb; simpl;
    [|done|by apply int_add_not_OutOfFuel in Eb].
  destruct (int_add number 1) as [number'| |] eqn:En; simpl;
    [|done|by apply int_add_not_OutOfFuel in En].
  pose proof (blocks_left_next _ _ Hwf Hvalid).
  specialize (IH (next d b) number' bottom bottom' (next_wf d b) ltac:(lia)).
  by destruct (visited fuel d rect_top rect_bottom (next d b) number' bottom bottom').
Qed.


(** The blocks the painters visit from the first visible block. *)
Lemma visited_first_spec (rect_top rect_bottom top bottom : Z) (ed : CodeEditor)
    (v : list (Z * Z)) :
  visited (S (Z.to_nat (blockCount (document ed)))) (document ed)
    rect_top rect_bottom (block_at (document ed) (firstVisible ed))
    (blockNumber (block_at (document ed) (firstVisible ed))) top bottom = Ok v ->
  Forall (fun p => p.1 <= rect_bottom /\ p.2 < blockCount (document ed)) v /\
  increasing_from (firstVisible ed) (v.*2).
Proof.
  intros Hv.
  destruct (visited_spec _ _ _ _ _ _ _ _ _
              (block_at_wf (document ed) (firstVisible ed)) (fun _ => eq_refl) Hv)
    as [Hall Hinc].
  split; [done|].
  unfold block_at in Hv, Hinc.
  destruct ((0 <=? firstVisible ed) && (firstVisible ed <? blockCount (document ed)));
    [done|].
  simpl in Hv. by injection Hv as <-.
Qed.

Lemma visited_first_not_OutOfFuel (rect_top rect_bottom top bottom : Z)
    (ed : CodeEditor) :
  visited (S (Z.to_nat (blockCount (document ed)))) (document ed)
    rect_top rect_bottom (block_at (document ed) (firstVisible ed))
    (blockNumber (block_at (document ed) (firstVisible ed))) top bottom
  ≠ OutOfFuel.
Proof.
  apply visited_not_OutOfFuel; [apply block_at_wf|].
  pose proof (block_at_wf (document ed) (firstVisible ed)) as Hwf.
  destruct (block_at _ _); simpl in *; lia.
Qed.

(** * Further properties *)

(** ** Reconciliation *)

(** X1. The loop of [updateSidebar] tests its condition once more than
    there are breakpoints to erase: with that many iterations allowed it
    returns what [updateSidebar] returns, with fewer it does not return;
    when no breakpoint is to erase, one test is all it does. *)
Theorem reconcile_iterations (ed : CodeEditor) :
  is_line_count (blockCount (document ed)) ->
  updateSidebar_loop (S (to_erase (blockCount (document ed)) (m_breakpoints ed))) ed
    = updateSidebar ed /\
  (forall fuel,
     (fuel <= to_erase (blockCount (document ed)) (m_breakpoints ed))%nat ->
     updateSidebar_loop fuel ed = OutOfFuel) /\
  ((forall x, x ∈ m_breakpoints ed -> x < blockCount (document ed)) ->
   updateSidebar_loop 1 ed = Ok (tt, ed)).
Proof.
  intros Hn. split; [|split].
  - rewrite updateSidebar_filter, updateSidebar_loop_iterations by done.
    by rewrite decide_True by lia.
  - intros fuel Hfuel. rewrite updateSidebar_loop_iterations by done.
    by rewrite decide_False by lia.
  - intros Hall. rewrite updateSidebar_loop_iterations by done.
    rewrite beyond_none by done. rewrite decide_True by lia.
    by rewrite reconcile_filter_all, set_breakpoints_same.
Qed.

Lemma reconcile_iterations_witness :
  is_line_count (blockCount (document (plain_editor {[2; 5; 9]} 6))) /\
  updateSidebar_loop
    (S (to_erase (blockCount (document (plain_editor {[2; 5; 9]} 6)))
          (m_breakpoints (plain_editor {[2; 5; 9]} 6))))
    (plain_editor {[2; 5; 9]} 6)
  = updateSidebar (plain_editor {[2; 5; 9]} 6).
Proof.
  assert (Hn : is_line_count (blockCount (document (plain_editor {[2; 5; 9]} 6))))
    by (unfold is_line_count, int_max; simpl; lia).
  exact (conj Hn (proj1 (reconcile_iterations (plain_editor {[2; 5; 9]} 6) Hn))).
Defined.

(** X2. A second [updateSidebar] on the same document changes nothing.
    When the document has [N] lines at one [updateSidebar] and [N'] at the
    next, the breakpoints left are those below the smaller of [N] and [N']:
    a breakpoint erased when its line went does not come back when the
    document grows again. *)
Theorem reconcile_twice (ed : CodeEditor) (d' : QTextDocument) (fv : Z) (off : qreal) :
  is_line_count (blockCount (document ed)) ->
  is_line_count (blockCount d') ->
  exists ed1,
    updateSidebar ed = Ok (tt, ed1) /\
    updateSidebar ed1 = Ok (tt, ed1) /\
    updateSidebar (set_document d' fv off ed1) =
      Ok (tt, set_breakpoints
                (reconcile_filter (Z.min (blockCount (document ed)) (blockCount d'))
                   (m_breakpoints ed))
                (set_document d' fv off ed)).
Proof.
  intros Hn Hn'. eexists. split; [by apply updateSidebar_filter|]. split.
  - rewrite updateSidebar_filter by done.
    rewrite m_breakpoints_set, document_set_breakpoints, set_breakpoints_twice.
    rewrite reconcile_filter_twice. by rewrite Z.min_id.
  - rewrite updateSidebar_filter by done. simpl.
    by rewrite reconcile_filter_twice.
Qed.

Lemma reconcile_twice_witness :
  is_line_count (blockCount (document (plain_editor {[2; 5; 9]} 6))) /\
  is_line_count (blockCount (plain_document 12)) /\
  exists ed1,
    updateSidebar (plain_editor {[2; 5; 9]} 6) = Ok (tt, ed1) /\
    updateSidebar ed1 = Ok (tt, ed1) /\
    updateSidebar (set_document (plain_document 12) 0 (qreal_of_int 0) ed1) =
      Ok (tt, set_breakpoints
                (reconcile_filter
                   (Z.min (blockCount (document (plain_editor {[2; 5; 9]} 6)))
                      (blockCount (plain_document 12)))
                   (m_breakpoints (plain_editor {[2; 5; 9]} 6)))
                (set_document (plain_document 12) 0 (qreal_of_int 0)
                   (plain_editor {[2; 5; 9]} 6))).
Proof.
  assert (Hn : is_line_count (blockCount (document (plain_editor {[2; 5; 9]} 6))))
    by (unfold is_line_count, int_max; simpl; lia).
  assert (Hn' : is_line_count (blockCount (plain_document 12)))
    by (unfold is_line_count, int_max; simpl; lia).
  exact (conj Hn (conj Hn'
           (reconcile_twice (plain_editor {[2; 5; 9]} 6) (plain_document 12) 0
              (qreal_of_int 0) Hn Hn'))).
Defined.

(** ** Clicks *)



(** X4. [breakpointClick] toggles for every [forceState] other than 1 and
    2: such a click does what a click with [forceState] 0 does. *)
Theorem click_other_forceState_toggles (pos_y forceState : Z) (ed : CodeEditor) :
  forceState ≠ 1 -> forceState ≠ 2 ->
  breakpointClick pos_y forceState ed = breakpointClick pos_y 0 ed.
Proof.
  intros H1 H2. unfold breakpointClick, mbind, M_bind.
  destruct (clicked_block pos_y ed) as [[b ed1]| |]; [|done..].
  destruct (isValid b); [|done].
  by rewrite !set_unset_breakpoint_toggle by done.
Qed.

Lemma click_other_forceState_toggles_witness :
  7 ≠ 1 /\ 7 ≠ 2 /\
  breakpointClick 47 7 (plain_editor {[5]} 6)
    = breakpointClick 47 0 (plain_editor {[5]} 6).
Proof.
  assert (H1 : 7 ≠ 1) by lia. assert (H2 : 7 ≠ 2) by lia.
  exact (conj H1 (conj H2
           (click_other_forceState_toggles 47 7 (plain_editor {[5]} 6) H1 H2))).
Defined.

(** X5. When the height of the first visible block is zero, as it is for
    an invalid first visible block, the quotient is infinite or not a
    number and its conversion to [int] is undefined: [breakpointClick] is
    undefined for every position and every [forceState]. *)
Theorem click_zero_height_undefined (pos_y forceState : Z) (ed : CodeEditor) :
  (forall s,
     blockBoundingRect_height (document ed)
       (block_at (document ed) (firstVisible ed)) = S754_zero s ->
     breakpointClick pos_y forceState ed = Undefined) /\
  (~ 0 <= firstVisible ed < blockCount (document ed) ->
   breakpointClick pos_y forceState ed = Undefined).
Proof.
  assert (forall s,
     blockBoundingRect_height (document ed)
       (block_at (document ed) (firstVisible ed)) = S754_zero s ->
     breakpointClick pos_y forceState ed = Undefined) as Hzero.
  { intros s Hs. unfold breakpointClick, clicked_block, firstVisibleBlock.
    unfold_M. by rewrite Hs, click_index_zero_height. }
  split; [exact Hzero|].
  intros Hfv. apply (Hzero false). by rewrite block_at_invalid.
Qed.

Lemma click_zero_height_undefined_witness :
  blockBoundingRect_height (document (scrolled_editor 3 0 0 5))
    (block_at (document (scrolled_editor 3 0 0 5))
       (firstVisible (scrolled_editor 3 0 0 5))) = S754_zero false /\
  breakpointClick 47 0 (scrolled_editor 3 0 0 5) = Undefined.
Proof.
  exact (conj eq_refl
           (proj1 (click_zero_height_undefined 47 0 (scrolled_editor 3 0 0 5))
              false eq_refl)).
Defined.

(** X6. Setting, unsetting or toggling two different lines gives the same
    editor in either order, for every pair of modes. *)
Theorem set_unset_commute (f g x y : Z) (ed : CodeEditor) :
  x ≠ y ->
  (set_unset_breakpoint f x;; set_unset_breakpoint g y) ed
    = (set_unset_breakpoint g y;; set_unset_breakpoint f x) ed.
Proof.
  intros Hxy. rewrite !set_unset_twice_set. do 3 f_equal.
  apply set_eq. intros z.
  rewrite !elem_of_set_unset.
  assert (y ≠ x) as Hyx by congruence.
  destruct (decide (z = x)) as [Hzx|Hzx], (decide (z = y)) as [Hzy|Hzy];
    [congruence|rewrite Hzx in *; tauto|rewrite Hzy in *; tauto|tauto].
Qed.

Lemma set_unset_commute_witness :
  2 ≠ 5 /\
  (set_unset_breakpoint 0 2;; set_unset_breakpoint 2 5) (plain_editor {[5]} 6)
    = (set_unset_breakpoint 2 5;; set_unset_breakpoint 0 2) (plain_editor {[5]} 6).
Proof.
  assert (H : 2 ≠ 5) by lia.
  exact (conj H (set_unset_commute 0 2 2 5 (plain_editor {[5]} 6) H)).
Defined.

(** X7. A forced set or unset of a line overrides what was done to that
    line just before: after any mode on line [x], [forceAdd x] gives what
    it gives alone, and so does [forceRemove x]. *)
Theorem force_overrides (f x : Z) (ed : CodeEditor) :
  (set_unset_breakpoint f x;; forceAdd x) ed = forceAdd x ed /\
  (set_unset_breakpoint f x;; forceRemove x) ed = forceRemove x ed.
Proof.
  unfold forceAdd, forceRemove. rewrite !set_unset_twice_set.
  rewrite !set_unset_breakpoint_set.
  change (1 =? 1) with true. change (2 =? 1) with false.
  change (2 =? 2) with true. cbv iota.
  split; do 3 f_equal; apply set_eq; intros z.
  - rewrite elem_of_union, elem_of_singleton, elem_of_set_unset.
    rewrite elem_of_union, elem_of_singleton.
    destruct (decide (z = x)); tauto.
  - rewrite elem_of_difference, elem_of_singleton, elem_of_set_unset.
    rewrite elem_of_difference, elem_of_singleton.
    destruct (decide (z = x)); tauto.
Qed.

(** X8. With a valid first visible line, an [int] position and an offset
    and a positive height that are integers, a click whose adjusted offset
    lies in the [k]-th band of one line height, counted from 0, lands on
    the [k]-th line after the first visible one, and on no line when that
    is past the end of the document. *)
Theorem click_band (ed : CodeEditor) (pixelY viewportTopOffset lineHeight k : Z) :
  0 <= firstVisible ed < blockCount (document ed) ->
  is_int pixelY -> Z.abs viewportTopOffset < 2 ^ 51 -> 0 < lineHeight < 2 ^ 53 ->
  contentOffset_y ed = qreal_of_int viewportTopOffset ->
  blockHeight (document ed) (firstVisible ed) = qreal_of_int lineHeight ->
  is_int k -> 0 <= k ->
  k * lineHeight <= adjusted_offset (firstVisible ed) pixelY viewportTopOffset
    < (k + 1) * lineHeight ->
  clicked_block pixelY ed = Ok (block_at (document ed) (firstVisible ed + k), ed).
Proof.
  intros Hfv Hy Ho Hh Hoff Hheight Hk Hk0 Hband.
  rewrite (clicked_block_int ed pixelY viewportTopOffset lineHeight) by done.
  rewrite (quot_band _ _ k) by (done || lia).
  rewrite to_int_is_int by done. do 2 f_equal.
  rewrite <- (block_at_valid (document ed) (firstVisible ed)) by done.
  by rewrite walk_block_at by lia.
Qed.

Lemma click_band_witness :
  0 <= firstVisible (scrolled_editor 30 10 15 4)
    < blockCount (document (scrolled_editor 30 10 15 4)) /\
  is_int 34 /\ Z.abs 4 < 2 ^ 51 /\ 0 < 15 < 2 ^ 53 /\ is_int 2 /\ 0 <= 2 /\
  2 * 15 <= adjusted_offset 10 34 4 < (2 + 1) * 15 /\
  clicked_block 34 (scrolled_editor 30 10 15 4)
    = Ok (block_at (document (scrolled_editor 30 10 15 4)) (10 + 2),
          scrolled_editor 30 10 15 4).
Proof.
  assert (Hfv : 0 <= firstVisible (scrolled_editor 30 10 15 4)
                  < blockCount (document (scrolled_editor 30 10 15 4)))
    by (simpl; lia).
  assert (Hy : is_int 34) by (unfold is_int, int_min, int_max; lia).
  assert (Ho : Z.abs 4 < 2 ^ 51) by (simpl; lia).
  assert (Hh : 0 < 15 < 2 ^ 53) by lia.
  assert (Hk : is_int 2) by (unfold is_int, int_min, int_max; lia).
  assert (Hk0 : 0 <= 2) by lia.
  assert (Hband : 2 * 15 <= adjusted_offset 10 34 4 < (2 + 1) * 15)
    by (unfold adjusted_offset; simpl; lia).
  exact (conj Hfv (conj Hy (conj Ho (conj Hh (conj Hk (conj Hk0 (conj Hband
           (click_band (scrolled_editor 30 10 15 4) 34 4 15 2
              Hfv Hy Ho Hh eq_refl eq_refl Hk Hk0 Hband)))))))).
Defined.

(** X9. For an offset and a positive height that are integers, the block
    index grows with the position: a click further down never gives a
    smaller index. *)
Theorem click_index_monotone (atFirstLine : bool)
    (pos_y pos_y' offset height index index' : Z) :
  is_int pos_y -> is_int pos_y' -> Z.abs offset < 2 ^ 51 -> 0 < height < 2 ^ 53 ->
  pos_y <= pos_y' ->
  click_index atFirstLine pos_y (qreal_of_int offset) (qreal_of_int height)
    = Ok index ->
  click_index atFirstLine pos_y' (qreal_of_int offset) (qreal_of_int height)
    = Ok index' ->
  index <= index'.
Proof.
  intros Hy Hy' Ho Hh Hle. rewrite !click_index_int by done.
  unfold to_int.
  destruct (in_int _); [|discriminate]. intros [= <-].
  destruct (in_int _); [|discriminate]. intros [= <-].
  destruct atFirstLine; apply Z.quot_le_mono; lia.
Qed.

Lemma click_index_monotone_witness :
  is_int 34 /\ is_int 47 /\ Z.abs 4 < 2 ^ 51 /\ 0 < 15 < 2 ^ 53 /\ 34 <= 47 /\
  click_index false 34 (qreal_of_int 4) (qreal_of_int 15) = Ok 2 /\
  click_index false 47 (qreal_of_int 4) (qreal_of_int 15) = Ok 3 /\
  2 <= 3.
Proof.
  assert (Hy : is_int 34) by (unfold is_int, int_min, int_max; lia).
  assert (Hy' : is_int 47) by (unfold is_int, int_min, int_max; lia).
  assert (Ho : Z.abs 4 < 2 ^ 51) by (simpl; lia).
  assert (Hh : 0 < 15 < 2 ^ 53) by lia.
  assert (Hle : 34 <= 47) by lia.
  assert (H1 : click_index false 34 (qreal_of_int 4) (qreal_of_int 15) = Ok 2)
    by (vm_compute; reflexivity).
  assert (H2 : click_index false 47 (qreal_of_int 4) (qreal_of_int 15) = Ok 3)
    by (vm_compute; reflexivity).
  exact (conj Hy (conj Hy' (conj Ho (conj Hh (conj Hle (conj H1 (conj H2
           (click_index_monotone false 34 47 4 15 2 3
              Hy Hy' Ho Hh Hle H1 H2)))))))).
Defined.

(** ** The side areas *)

(** X10. For a character width between 0 and [10 ^ 8] the width of the
    line number area is 6 plus the character width times the number of
    decimal digits of the line count, a line count below 1 counting as 1;
    an [int] line count has at most 10 digits. *)
Theorem gutter_width_digits (charWidth blockCount : Z) :
  is_int blockCount -> 0 <= charWidth <= 10 ^ 8 ->
  exists d,
    is_digits d (Z.max 1 blockCount) /\ d <= 10 /\
    lineNumberAreaWidth charWidth blockCount = Ok (6 + charWidth * d).
Proof.
  intros Hn Hcw.
  destruct (lineNumberAreaWidth_eq charWidth blockCount Hn) as (d & Hd & Hd10 & ->).
  exists d. split; [done|]. split; [done|].
  destruct Hd as [Hd1 _].
  unfold int_mul, int_add.
  rewrite to_int_is_int by (unfold is_int, int_min, int_max; nia). simpl.
  apply to_int_is_int. unfold is_int, int_min, int_max. nia.
Qed.

Lemma gutter_width_digits_witness :
  is_int 120 /\ 0 <= 7 <= 10 ^ 8 /\
  exists d,
    is_digits d (Z.max 1 120) /\ d <= 10 /\
    lineNumberAreaWidth 7 120 = Ok (6 + 7 * d).
Proof.
  assert (Hn : is_int 120) by (unfold is_int, int_min, int_max; lia).
  assert (Hcw : 0 <= 7 <= 10 ^ 8) by lia.
  exact (conj Hn (conj Hcw (gutter_width_digits 7 120 Hn Hcw))).
Defined.

(** X11. The line number area never narrows when the document grows: for
    line counts [n <= n'] the width for [n] is at most the width for [n'];
    up to 9 lines, and for a line count below 1, it is 6 plus one character
    width. *)
Theorem gutter_width_monotone (charWidth n n' : Z) :
  is_int n -> is_int n' -> 0 <= charWidth <= 10 ^ 8 -> n <= n' ->
  exists w w',
    lineNumberAreaWidth charWidth n = Ok w /\
    lineNumberAreaWidth charWidth n' = Ok w' /\
    w <= w' /\
    (n' <= 9 -> w' = 6 + charWidth).
Proof.
  intros Hn Hn' Hcw Hle.
  destruct (lineNumberAreaWidth_eq charWidth n Hn) as (d & Hd & Hd10 & ->).
  destruct (lineNumberAreaWidth_eq charWidth n' Hn') as (d' & Hd' & Hd10' & ->).
  rewrite !gutter_width_value by (unfold is_digits in *; lia).
  exists (6 + charWidth * d), (6 + charWidth * d').
  split; [done|]. split; [done|]. split.
  - pose proof (is_digits_le d d' _ _ Hd Hd' ltac:(lia)). nia.
  - intros H9.
    assert (is_digits 1 (Z.max 1 n')) as H1 by (unfold is_digits; simpl; lia).
    pose proof (is_digits_le d' 1 _ _ Hd' H1 ltac:(lia)).
    destruct Hd' as [? _]. replace d' with 1 by lia. lia.
Qed.

Lemma gutter_width_monotone_witness :
  is_int 99 /\ is_int 100 /\ 0 <= 7 <= 10 ^ 8 /\ 99 <= 100 /\
  exists w w',
    lineNumberAreaWidth 7 99 = Ok w /\
    lineNumberAreaWidth 7 100 = Ok w' /\
    w <= w' /\
    (100 <= 9 -> w' = 6 + 7).
Proof.
  assert (Hn : is_int 99) by (unfold is_int, int_min, int_max; lia).
  assert (Hn' : is_int 100) by (unfold is_int, int_min, int_max; lia).
  assert (Hcw : 0 <= 7 <= 10 ^ 8) by lia.
  assert (Hle : 99 <= 100) by lia.
  exact (conj Hn (conj Hn' (conj Hcw (conj Hle
           (gutter_width_monotone 7 99 100 Hn Hn' Hcw Hle))))).
Defined.

(** X12. The two side areas [resizeEvent] places fill the left margin
    [updateSidebarWidth] reserves: the breakpoint area starts at the left
    of the contents rectangle, the line number area starts right after it
    and ends where the margin ends, and both span the height of the
    contents rectangle. *)
Theorem side_areas_fill_margin (cr lineNumberArea breakpointArea : QRect)
    (charWidth areaWidth blockCount margin : Z) :
  resizeEvent cr charWidth areaWidth blockCount
    = Ok (lineNumberArea, breakpointArea) ->
  updateSidebarWidth charWidth areaWidth blockCount = Ok margin ->
  rect_left breakpointArea = rect_left cr /\
  rect_width breakpointArea = areaWidth /\
  rect_left lineNumberArea = rect_right breakpointArea + 1 /\
  rect_right lineNumberArea = rect_left cr + margin - 1 /\
  rect_width breakpointArea + rect_width lineNumberArea = margin /\
  rect_y lineNumberArea = rect_y cr /\ rect_y breakpointArea = rect_y cr /\
  rect_height lineNumberArea = rect_height cr /\
  rect_height breakpointArea = rect_height cr.
Proof.
  unfold resizeEvent, updateSidebarWidth.
  intros (x & Hx & (w & Hw & [= <- <-])%res_bind_Ok)%res_bind_Ok.
  rewrite Hw. simpl. intros [-> _]%to_int_Ok.
  apply to_int_Ok in Hx as [-> _].
  unfold rect_left, rect_right. simpl. lia.
Qed.

Lemma side_areas_fill_margin_witness :
  resizeEvent {| rect_x := 2; rect_y := 3; rect_width := 400; rect_height := 300 |}
      7 16 120
    = Ok ({| rect_x := 18; rect_y := 3; rect_width := 27; rect_height := 300 |},
          {| rect_x := 2; rect_y := 3; rect_width := 16; rect_height := 300 |}) /\
  updateSidebarWidth 7 16 120 = Ok 43 /\
  rect_left {| rect_x := 18; rect_y := 3; rect_width := 27; rect_height := 300 |}
    = rect_right {| rect_x := 2; rect_y := 3; rect_width := 16; rect_height := 300 |}
      + 1.
Proof.
  assert (H1 : resizeEvent
                 {| rect_x := 2; rect_y := 3; rect_width := 400; rect_height := 300 |}
                 7 16 120
    = Ok ({| rect_x := 18; rect_y := 3; rect_width := 27; rect_height := 300 |},
          {| rect_x := 2; rect_y := 3; rect_width := 16; rect_height := 300 |}))
    by (vm_compute; reflexivity).
  assert (H2 : updateSidebarWidth 7 16 120 = Ok 43) by (vm_compute; reflexivity).
  exact (conj H1 (conj H2
           (proj1 (proj2 (proj2
              (side_areas_fill_margin _ _ _ 7 16 120 43 H1 H2)))))).
Defined.

(** ** The font *)

(** X13. [eventFilter] handles an event, returning true, exactly when it
    is a wheel event and the keyboard modifiers are the control key alone.
    An event it does not handle leaves the font and the timer as they were;
    after one it handles the timer runs and the font of the widget is
    [m_font]. *)
Theorem eventFilter_handles (event : QEvent) (keyboardModifiers : Z) (st : FontState) :
  (fst (eventFilter event keyboardModifiers st) = true <->
   (exists angleDelta_y, event = Wheel angleDelta_y) /\
   keyboardModifiers = ControlModifier) /\
  (fst (eventFilter event keyboardModifiers st) = false ->
   snd (eventFilter event keyboardModifiers st) = st) /\
  (fst (eventFilter event keyboardModifiers st) = true ->
   m_fontTimer_active (snd (eventFilter event keyboardModifiers st)) = true /\
   widget_pointSize (snd (eventFilter event keyboardModifiers st))
     = m_font_pointSize (snd (eventFilter event keyboardModifiers st))).
Proof.
  split; [|split].
  - unfold eventFilter. destruct event as [dy|].
    + destruct (Z.eqb_spec keyboardModifiers ControlModifier) as [->|Hne]; simpl.
      * split; [|done]. intros _. split; [by exists dy|done].
      * split; [done|]. by intros [_ ?].
    + simpl. split; [done|]. by intros [[dy ?] _].
  - apply eventFilter_not_handled.
  - intros Hhandled. split; [by apply eventFilter_handled_timer|].
    unfold eventFilter in *. destruct event as [dy|]; [|done].
    by destruct (keyboardModifiers =? ControlModifier).
Qed.

Lemma eventFilter_handles_witness :
  fst (eventFilter (Wheel 120) ControlModifier initial_font) = true /\
  m_fontTimer_active (snd (eventFilter (Wheel 120) ControlModifier initial_font))
    = true /\
  widget_pointSize (snd (eventFilter (Wheel 120) ControlModifier initial_font))
    = m_font_pointSize (snd (eventFilter (Wheel 120) ControlModifier initial_font)).
Proof.
  exact (conj eq_refl
           (proj2 (proj2 (eventFilter_handles (Wheel 120) ControlModifier
                            initial_font)) eq_refl)).
Defined.

(** X14. From the font of the constructor, whatever events go through
    the filter and whenever the timer runs out, the point size of [m_font]
    and of the font of the widget stay between 6 and 30, and no step moves
    the point size of [m_font] by more than one. *)
Theorem font_size_bounds (steps : list font_step) (s : font_step) :
  6 <= m_font_pointSize (foldl (fun st s => font_run s st) initial_font steps) <= 30 /\
  6 <= widget_pointSize (foldl (fun st s => font_run s st) initial_font steps) <= 30 /\
  Z.abs (m_font_pointSize
           (font_run s (foldl (fun st s => font_run s st) initial_font steps))
         - m_font_pointSize (foldl (fun st s => font_run s st) initial_font steps))
    <= 1.
Proof.
  destruct (font_steps_bounds steps initial_font) as [Hs Hw]; [simpl; lia..|].
  split; [done|]. split; [done|]. by apply font_run_size.
Qed.

(** X15. However many events go through the filter before the timer runs
    out, the point size of [m_font] moves by at most one in all: once an
    event is handled the timer runs, and while it runs the size stays. *)
Theorem font_debounce (events : list (QEvent * Z)) (st : FontState) :
  Z.abs (m_font_pointSize
           (foldl (fun st e => snd (eventFilter e.1 e.2 st)) st events)
         - m_font_pointSize st) <= 1 /\
  (m_fontTimer_active st = true ->
   m_font_pointSize
     (foldl (fun st e => snd (eventFilter e.1 e.2 st)) st events)
   = m_font_pointSize st).
Proof.
  split; [apply filters_burst|apply filters_timer_active].
Qed.

Lemma font_debounce_witness :
  m_fontTimer_active (snd (eventFilter (Wheel 120) ControlModifier initial_font))
    = true /\
  m_font_pointSize
    (foldl (fun st e => snd (eventFilter e.1 e.2 st))
       (snd (eventFilter (Wheel 120) ControlModifier initial_font))
       [(Wheel 120, ControlModifier); (Wheel 120, ControlModifier)])
  = m_font_pointSize (snd (eventFilter (Wheel 120) ControlModifier initial_font)).
Proof.
  exact (conj eq_refl
           (proj2 (font_debounce
                     [(Wheel 120, ControlModifier); (Wheel 120, ControlModifier)]
                     (snd (eventFilter (Wheel 120) ControlModifier initial_font)))
              eq_refl)).
Defined.

(** ** The painters *)

(** X16. The two painters walk the same blocks: [breakpointAreaPaintEvent]
    is defined exactly when [lineNumberAreaPaintEvent] is, and it draws its
    pixmaps, most recent first, at the tops of the line numbers [n] drawn
    by the other whose line [n - 1] is a breakpoint; nothing else of the
    editor changes. *)
Theorem painters_agree (rect_top rect_bottom : Z) (ed : CodeEditor) :
  breakpointAreaPaintEvent rect_top rect_bottom ed =
  res_bind (lineNumberAreaPaintEvent rect_top rect_bottom ed) (fun l =>
    Ok (tt, add_pixmaps
              (rev (filter (fun p => p.2 - 1 ∈ m_breakpoints ed) l).*1) ed)).
Proof.
  unfold breakpointAreaPaintEvent, lineNumberAreaPaintEvent, firstVisibleBlock.
  unfold_M.
  destruct (int_of_qreal (qreal_add _ _)) as [top| |]; [|done..]. cbn [res_bind].
  destruct (int_of_qreal (blockBoundingRect_height _ _)) as [h| |]; [|done..].
  cbn [res_bind].
  destruct (int_add top h) as [bottom| |]; [|done..]. cbn [res_bind].
  rewrite paint_loop_visited, lineNumber_loop_visited.
  destruct (visited _ _ _ _ _ _ _ _) as [v| |]; [|done..].
  cbn [res_bind]. do 3 f_equal.
  rewrite filter_fmap_comp, <- list_fmap_compose.
  rewrite (list_filter_iff (fun x : Z * Z => (x.1, x.2 + 1).2 - 1 ∈ m_breakpoints ed)
             (fun p => p.2 ∈ m_breakpoints ed)); [done|].
  intros [t n]. simpl. by replace (n + 1 - 1) with n by lia.
Qed.

(** X17. [lineNumberAreaPaintEvent] ends within the iterations given, and
    when it returns, every number drawn is at a top not below the bottom of
    the rectangle, is the number of a line of the document after the first
    visible line counted from one, and is greater than each number drawn
    before it. *)
Theorem line_numbers_increase (rect_top rect_bottom : Z) (ed : CodeEditor) :
  lineNumberAreaPaintEvent rect_top rect_bottom ed ≠ OutOfFuel /\
  forall l,
    lineNumberAreaPaintEvent rect_top rect_bottom ed = Ok l ->
    Forall (fun p => p.1 <= rect_bottom /\
                     firstVisible ed < p.2 <= blockCount (document ed)) l /\
    forall (i j : nat) p q,
      l !! i = Some p -> l !! j = Some q -> (i < j)%nat -> p.2 < q.2.
Proof.
  unfold lineNumberAreaPaintEvent.
  destruct (int_of_qreal (qreal_add _ _)) as [top| |] eqn:Et;
    [|by split|by apply int_of_qreal_not_OutOfFuel in Et].
  cbn [res_bind].
  destruct (int_of_qreal (blockBoundingRect_height _ _)) as [h| |] eqn:Eh;
    [|by split|by apply int_of_qreal_not_OutOfFuel in Eh].
  cbn [res_bind].
  destruct (int_add top h) as [bottom| |] eqn:Eb;
    [|by split|by apply int_add_not_OutOfFuel in Eb].
  cbn [res_bind]. rewrite lineNumber_loop_visited.
  pose proof (visited_first_not_OutOfFuel rect_top rect_bottom top bottom ed) as Hfuel.
  destruct (visited _ _ _ _ _ _ _ _) as [v| |] eqn:Hv; [|by split|done].
  split; [done|]. simpl. intros l [= <-].
  destruct (visited_first_spec _ _ _ _ _ _ Hv) as [Hall Hinc].
  split.
  - pose proof (increasing_from_Forall _ _ Hinc) as Hlow.
    rewrite Forall_fmap in Hlow. rewrite Forall_fmap.
    rewrite Forall_forall in Hall, Hlow. apply Forall_forall.
    intros p Hp. specialize (Hall p Hp). specialize (Hlow p Hp).
    simpl in *. lia.
  - intros i j p q Hi Hj Hij.
    rewrite list_lookup_fmap in Hi, Hj.
    destruct (v !! i) as [p0|] eqn:Ei; [|done].
    destruct (v !! j) as [q0|] eqn:Ej; [|done].
    injection Hi as <-. injection Hj as <-. simpl.
    assert (p0.2 < q0.2); [|lia].
    apply (increasing_from_lookup (firstVisible ed) (v.*2) i j); [done| | |done].
    + by rewrite list_lookup_fmap, Ei.
    + by rewrite list_lookup_fmap, Ej.
Qed.

Lemma line_numbers_increase_witness :
  lineNumberAreaPaintEvent 0 45 (plain_editor {[2; 5; 9]} 6)
    = Ok [(0, 1); (20, 2); (40, 3)] /\
  Forall (fun p => p.1 <= 45 /\
                   firstVisible (plain_editor {[2; 5; 9]} 6) < p.2
                     <= blockCount (document (plain_editor {[2; 5; 9]} 6)))
    [(0, 1); (20, 2); (40, 3)].
Proof.
  assert (Hl : lineNumberAreaPaintEvent 0 45 (plain_editor {[2; 5; 9]} 6)
               = Ok [(0, 1); (20, 2); (40, 3)])
    by (vm_compute; reflexivity).
  exact (conj Hl
           (proj1 (proj2 (line_numbers_increase 0 45 (plain_editor {[2; 5; 9]} 6))
                     _ Hl))).
Defined.



(** ** The context menu of the breakpoint area *)

(** X19. A context menu opened at a position over line [n] stores that
    position, whatever position an earlier menu left; its action
    "Add breakpoint" makes [n] a breakpoint and "Remove breakpoint" makes
    it none, each with one repaint, and a menu closed without an action
    leaves the editor as it was. *)
Theorem context_menu_acts_at_position (pos_x pos_y n : Z) (a : MenuAction)
    (area : BreakpointArea) (ed : CodeEditor) :
  clicked_block pos_y ed = Ok (Block n, ed) ->
  contextMenuEvent pos_x pos_y None area ed
    = Ok ({| m_event_x := pos_x; m_event_y := pos_y |}, ed) /\
  exists ed',
    contextMenuEvent pos_x pos_y (Some a) area ed
      = Ok ({| m_event_x := pos_x; m_event_y := pos_y |}, ed') /\
    repaints ed' = S (repaints ed) /\
    document ed' = document ed /\
    m_breakpoints ed' =
      match a with
      | AddBreakpoint => {[n]} ∪ m_breakpoints ed
      | RemoveBreakpoint => m_breakpoints ed ∖ {[n]}
      end.
Proof.
  intros Hb. split; [done|].
  unfold contextMenuEvent, triggered.
  destruct a; cbv beta iota zeta; simpl m_event_y.
  - destruct (breakpointClick_on_block pos_y 1 n ed Hb)
      as (ed' & Hrun & _ & Hrep & Hset).
    destruct (breakpointClick_breakpoints _ _ _ _ Hrun) as [Hdoc _].
    rewrite Hrun. by exists ed'.
  - destruct (breakpointClick_on_block pos_y 2 n ed Hb)
      as (ed' & Hrun & _ & Hrep & Hset).
    destruct (breakpointClick_breakpoints _ _ _ _ Hrun) as [Hdoc _].
    rewrite Hrun. by exists ed'.
Qed.

Lemma context_menu_acts_at_position_witness :
  clicked_block 47 (plain_editor {[5]} 6) = Ok (Block 2, plain_editor {[5]} 6) /\
  contextMenuEvent 3 47 None initial_area (plain_editor {[5]} 6)
    = Ok ({| m_event_x := 3; m_event_y := 47 |}, plain_editor {[5]} 6).
Proof.
  assert (Hb : clicked_block 47 (plain_editor {[5]} 6)
               = Ok (Block 2, plain_editor {[5]} 6))
    by (vm_compute; reflexivity).
  exact (conj Hb
           (proj1 (context_menu_acts_at_position 3 47 2 AddBreakpoint
                     initial_area _ Hb))).
Defined.
